(** * ReviewsParser of parser-2gis: a shallow embedding and its properties

    The development follows [parser_2gis/parser/parsers/reviews.py].
    Python strings are modelled by [string] (a sequence of code points
    below 256), Python objects coming out of [json.loads] by the type
    [json], the browser session ([ChromeRemote]) by an interface over an
    abstract world, and exceptions by an explicit outcome type. *)

From Stdlib Require Import String Ascii List ZArith Bool Lia.
From Stdlib Require Import Floats.PrimFloat.
Import ListNotations.

Set Warnings "-register-all".
Set Implicit Arguments.

Local Open Scope string_scope.
Local Open Scope Z_scope.

(** ** Python strings *)

Module PyStr.

(** The double quote, the line feed and the carriage return. *)
Definition dq : string := String (ascii_of_nat 34) EmptyString.
Definition lf : string := String (ascii_of_nat 10) EmptyString.
Definition cr : string := String (ascii_of_nat 13) EmptyString.

Fixpoint rev_onto (s acc : string) : string :=
  match s with
  | EmptyString => acc
  | String a s' => rev_onto s' (String a acc)
  end.

Definition rev (s : string) : string := rev_onto s EmptyString.

(** [strip_prefix p s] is the rest of [s] after its prefix [p]. *)
Fixpoint strip_prefix (p s : string) : option string :=
  match p with
  | EmptyString => Some s
  | String a p' =>
      match s with
      | EmptyString => None
      | String b s' => if Ascii.eqb a b then strip_prefix p' s' else None
      end
  end.

Definition startswith (s p : string) : bool :=
  match strip_prefix p s with Some _ => true | None => false end.

(** [str.replace(old, new)] for a non-empty [old]: every occurrence, left
    to right, without overlap.  [skip] counts the characters of the
    occurrence just replaced that remain to be dropped. *)
Fixpoint replace_go (old new : string) (skip : nat) (s : string) : string :=
  match s with
  | EmptyString => EmptyString
  | String a s' =>
      match skip with
      | S k => replace_go old new k s'
      | O =>
          if startswith s old
          then new ++ replace_go old new (Nat.pred (String.length old)) s'
          else String a (replace_go old new O s')
      end
  end.

Definition replace (s old new : string) : string := replace_go old new O s.

(** Truth value of a string: non-empty. *)
Definition truthy (s : string) : bool :=
  match s with EmptyString => false | _ => true end.

End PyStr.

(** ** Exceptions and outcomes *)

Inductive Exn : Type :=
| AssertionError
| IndexError
| KeyError
| TypeError
| JSONDecodeError
| TimeoutError.

Inductive Outcome (A : Type) : Type :=
| Return (a : A)
| Raise (e : Exn).

Arguments Return [A] a.
Arguments Raise {A} e.

(** ** The subset of [re] the parser uses *)

Module Re.

Inductive CharClass : Type :=
| AnyChar      (* [.] under [re.DOTALL] *)
| Whitespace.  (* [\s] *)

(** [\s] on a [str] pattern: the characters for which [str.isspace] holds,
    here those below 256. *)
Definition isspace (a : ascii) : bool :=
  let n := nat_of_ascii a in
  ((9 <=? n) && (n <=? 13) || (28 <=? n) && (n <=? 32)
   || (n =? 133) || (n =? 160))%nat.

Definition in_class (c : CharClass) (a : ascii) : bool :=
  match c with
  | AnyChar => true
  | Whitespace => isspace a
  end.

Inductive Atom : Type :=
| Lit (s : string)            (* a run of literal characters *)
| LookBehind (s : string)     (* [(?<=s)] for a literal [s] *)
| LazyGroup (c : CharClass)   (* [(c*?)], a capturing group *)
| GreedyPlus (c : CharClass). (* [c+] *)

Definition Regex : Type := list Atom.

(** Backtracking match of [r] at one position: [pre] holds the text before
    the position, reversed, and [rest] the text from it on.  The result
    lists the captured groups. *)
Fixpoint match_here (r : Regex) (pre rest : string) : option (list string) :=
  match r with
  | [] => Some []
  | Lit l :: r' =>
      match PyStr.strip_prefix l rest with
      | Some rest' => match_here r' (PyStr.rev_onto l pre) rest'
      | None => None
      end
  | LookBehind l :: r' =>
      if PyStr.startswith pre (PyStr.rev l) then match_here r' pre rest
      else None
  | LazyGroup c :: r' =>
      (fix lazy (acc pre rest : string) {struct rest} : option (list string) :=
         match match_here r' pre rest with
         | Some gs => Some (PyStr.rev acc :: gs)
         | None =>
             match rest with
             | String a rest' =>
                 if in_class c a
                 then lazy (String a acc) (String a pre) rest'
                 else None
             | EmptyString => None
             end
         end) EmptyString pre rest
  | GreedyPlus c :: r' =>
      match rest with
      | String a rest' =>
          if in_class c a then
            (fix greedy (pre rest : string) {struct rest}
               : option (list string) :=
               match rest with
               | String b rest'' =>
                   if in_class c b then
                     match greedy (String b pre) rest'' with
                     | Some gs => Some gs
                     | None => match_here r' pre rest
                     end
                   else match_here r' pre rest
               | EmptyString => match_here r' pre rest
               end) (String a pre) rest'
          else None
      | EmptyString => None
      end
  end.

(** A match object, reduced to its groups 1, 2, ... *)
Record Match : Type := { groups : list string }.

Fixpoint search_from (r : Regex) (pre rest : string) : option Match :=
  match match_here r pre rest with
  | Some gs => Some {| groups := gs |}
  | None =>
      match rest with
      | String a rest' => search_from r (String a pre) rest'
      | EmptyString => None
      end
  end.

(** [re.search(pattern, string, re.DOTALL)]: the leftmost match, or [None]. *)
Definition search (r : Regex) (s : string) : option Match :=
  search_from r EmptyString s.

(** [m[i]] for [i >= 1] on the result of [re.search]: subscripting [None]
    raises [TypeError]. *)
Definition getitem (m : option Match) (i : nat) : Outcome string :=
  match m with
  | None => Raise TypeError
  | Some m' =>
      match nth_error (groups m') (Nat.pred i) with
      | Some g => Return g
      | None => Raise IndexError
      end
  end.

End Re.

(** ** Python objects produced by [json.loads] *)

Inductive json : Type :=
| JNull
| JBool (b : bool)
| JInt (z : Z)
| JFloat (f : float)
| JStr (s : string)
| JList (l : list json)
| JDict (kvs : list (string * json)).

Module Py.

(** [bool(v)] *)
Definition truthy (v : json) : bool :=
  match v with
  | JNull => false
  | JBool b => b
  | JInt z => negb (z =? 0)
  | JFloat f => negb (PrimFloat.eqb f PrimFloat.zero)
  | JStr s => PyStr.truthy s
  | JList l => match l with [] => false | _ => true end
  | JDict kvs => match kvs with [] => false | _ => true end
  end.

Fixpoint chars (s : string) : list json :=
  match s with
  | EmptyString => []
  | String a s' => JStr (String a EmptyString) :: chars s'
  end.

(** The items a [for] loop over [v] visits. *)
Definition iter (v : json) : Outcome (list json) :=
  match v with
  | JList l => Return l
  | JDict kvs => Return (map (fun kv => JStr (fst kv)) kvs)
  | JStr s => Return (chars s)
  | _ => Raise TypeError
  end.

Fixpoint lookup (k : string) (kvs : list (string * json)) : option json :=
  match kvs with
  | [] => None
  | (k', v) :: kvs' => if String.eqb k k' then Some v else lookup k kvs'
  end.

(** Position designated by index [i] in a sequence of length [len]. *)
Definition index (len : nat) (i : Z) : option nat :=
  if (0 <=? i) && (i <? Z.of_nat len) then Some (Z.to_nat i)
  else if (- Z.of_nat len <=? i) && (i <? 0)
  then Some (Z.to_nat (Z.of_nat len + i))
  else None.

Definition seq_getitem (items : list json) (i : Z) : Outcome json :=
  match index (length items) i with
  | Some n =>
      match nth_error items n with
      | Some x => Return x
      | None => Raise IndexError
      end
  | None => Raise IndexError
  end.

(** [v[k]] *)
Definition getitem (v k : json) : Outcome json :=
  match v with
  | JDict kvs =>
      match k with
      | JStr s =>
          match lookup s kvs with
          | Some x => Return x
          | None => Raise KeyError
          end
      | JList _ | JDict _ => Raise TypeError
      | _ => Raise KeyError
      end
  | JList l =>
      match k with
      | JInt i => seq_getitem l i
      | JBool b => seq_getitem l (if b then 1 else 0)
      | _ => Raise TypeError
      end
  | JStr s =>
      match k with
      | JInt i => seq_getitem (chars s) i
      | JBool b => seq_getitem (chars s) (if b then 1 else 0)
      | _ => Raise TypeError
      end
  | _ => Raise TypeError
  end.

End Py.

(** ** The browsing session *)

(** A response record of the session: the fields the parser reads. *)
Record Response : Type := {
  status : Z;
  mimeType : string;
  url : string
}.

Inductive DOMNode : Type :=
| Node (local_name : string) (attributes : list (string * string))
       (children : list DOMNode).

Definition local_name (n : DOMNode) : string :=
  match n with Node name _ _ => name end.

Definition attributes (n : DOMNode) : list (string * string) :=
  match n with Node _ attrs _ => attrs end.

Definition children (n : DOMNode) : list DOMNode :=
  match n with Node _ _ ch => ch end.

(** [attrs.get(key)] *)
Fixpoint attr_get (key : string) (attrs : list (string * string))
  : option string :=
  match attrs with
  | [] => None
  | (k, v) :: attrs' => if String.eqb key k then Some v else attr_get key attrs'
  end.

(** Modelled from the spec: [DOMNode.search] of parser_2gis/chrome/dom.py is
    not among the sources; the spec gives it as
    [queryDom(predicate) -> node[]].  It is taken as the nodes of the tree
    that satisfy the predicate, in document order. *)
Fixpoint search (predicate : DOMNode -> bool) (n : DOMNode) : list DOMNode :=
  match n with
  | Node _ _ ch =>
      (if predicate n then [n] else [])
        ++ flat_map (search predicate) ch
  end.

(** The calls the parser makes on its [ChromeRemote]. *)
Inductive Call : Type :=
| CNavigate (target referer : string) (timeout : Z)
| CGetResponses (timeout : Z)
| CExecuteScript (script : string)
| CGetHtml
| CGetDocument
| CWait (milliseconds : Z)
| CPerformScroll (node : DOMNode)
| CWaitResponses (pattern : string)
| CGetResponseBody (resp : Response) (timeout : Z)
| CStop.

Definition is_stop (c : Call) : bool :=
  match c with CStop => true | _ => false end.

Definition is_get_html (c : Call) : bool :=
  match c with CGetHtml => true | _ => false end.

Definition is_perform_scroll (c : Call) : bool :=
  match c with CPerformScroll _ => true | _ => false end.


Definition is_wait_responses (c : Call) : bool :=
  match c with CWaitResponses _ => true | _ => false end.

(** The session as the parser sees it: each operation maps the world before
    the call to its result and the world after it.  [polls_within t w] is
    the number of further polls a wait of [t] time units started in [w]
    has time for. *)
Record ChromeRemote (W : Type) : Type := {
  navigate : string -> string -> Z -> W -> W;
  get_responses : Z -> W -> list Response * W;
  execute_script : string -> W -> bool * W;
  get_html : W -> string * W;
  get_document : W -> DOMNode * W;
  wait : Z -> W -> W;
  perform_scroll : DOMNode -> W -> W;
  wait_responses : string -> W -> option Response * W;
  get_response_body : Response -> Z -> W -> option string * W;
  stop : W -> W;
  polls_within : Z -> W -> nat
}.

Record ParserOptions : Type := {
  skip_404_response : bool;
  delay_between_clicks : Z
}.

Record ReviewsParser : Type := {
  _url : string;
  _options : ParserOptions;
  _item_response_pattern : string
}.

(** The pattern [__init__] installs. *)
Definition item_response_pattern : string :=
  "https://public-api\.reviews\.2gis.[^/]+/.*/reviews\?limit=12".

(** The state of a run: the world and the calls made so far. *)
Record St (W : Type) : Type := {
  world : W;
  calls : list Call
}.

(** A computation returns or raises, in a new state; [None] stands for a
    loop that was cut off for want of fuel. *)
Definition M (W A : Type) : Type := St W -> option (Outcome A * St W).

Definition ret {W A} (a : A) : M W A := fun st => Some (Return a, st).

Definition raise {W A} (e : Exn) : M W A := fun st => Some (Raise e, st).

Definition bind {W A B} (m : M W A) (k : A -> M W B) : M W B :=
  fun st =>
    match m st with
    | Some (Return a, st') => k a st'
    | Some (Raise e, st') => Some (Raise e, st')
    | None => None
    end.

Definition lift {W A} (o : Outcome A) : M W A :=
  fun st => Some (o, st).

Notation "x <- m ;; k" := (bind m (fun x => k))
  (at level 61, m at next level, right associativity).
Notation "m ;;; k" := (bind m (fun _ => k))
  (at level 61, right associativity).

(** A call with a result, and a call without one. *)
Definition call {W A} (c : Call) (op : W -> A * W) : M W A :=
  fun st =>
    let (a, w) := op (world st) in
    Some (Return a, {| world := w; calls := calls st ++ [c] |}).

Definition call_ {W} (c : Call) (op : W -> W) : M W unit :=
  call c (fun w => (tt, op w)).

(** A computation that always terminates. *)
Definition total {W A} (m : M W A) : Prop :=
  forall st, exists r st', m st = Some (r, st').

(** The calls a run adds are all allowed by [ok_call], and what it raises
    by [ok_exn]. *)
Definition respects {W A} (ok_call : Call -> bool) (ok_exn : Exn -> bool)
    (m : M W A) : Prop :=
  forall st r st', m st = Some (r, st') ->
    (exists l, calls st' = (calls st ++ l)%list /\ forallb ok_call l = true)
    /\ (forall e, r = Raise e -> ok_exn e = true).

(** Every run takes the world to one related to it by [R]. *)
Definition keeps {W A} (R : W -> W -> Prop) (m : M W A) : Prop :=
  forall st r st', m st = Some (r, st') -> R (world st) (world st').

(** ** The parser *)

Section Parser.

Context {W : Type} (chrome : ChromeRemote W).

(** [json.loads]: the parsed object, or [None] where it raises
    [json.JSONDecodeError]. *)
Variable json_loads : string -> option json.

Variable self : ReviewsParser.

(** Modelled from the spec: the decorator [wait_until_finished] of
    parser_2gis/common.py is not among the sources.  The spec has every
    wait implemented as "repeat check with timeout", with "a defined
    not-found result": the decorated function is called until its result
    is settled or the time is over; then the last result is returned, or
    [TimeoutError] is raised when the wait was asked to throw. *)
Fixpoint poll {A} (finished : A -> bool) (func : M W A) (n : nat)
  : M W (A * bool) :=
  r <- func ;;
  if finished r then ret (r, true)
  else match n with
       | O => ret (r, false)
       | S n' => poll finished func n'
       end.

Definition wait_until_finished {A} (timeout : Z) (throw_exception : bool)
    (finished : A -> bool) (func : M W A) : M W A :=
  fun st =>
    (r <- poll finished func (polls_within chrome timeout (world st)) ;;
     if snd r then ret (fst r)
     else if throw_exception then raise TimeoutError
     else ret (fst r)) st.

(** The default of [throw_exception] in the signature of
    [wait_until_finished] (parser_2gis/common.py) is [True]: a wait that
    times out raises [TimeoutError] unless its call site passes
    [throw_exception=False], as those of [_get_links] and [_get_sidebar] do
    and that of [_wait_requests_finished] does not. *)
Definition default_throw_exception : bool := true.

Definition nonempty {A} (l : list A) : bool :=
  match l with [] => false | _ => true end.

Definition list_getitem {A} (l : list A) (i : nat) : Outcome A :=
  match nth_error l i with
  | Some a => Return a
  | None => Raise IndexError
  end.

(** The predicate of [_get_sidebar]. *)
Definition valid_link (node : DOMNode) : bool :=
  match attr_get "class" (attributes node) with
  | Some EmptyString => String.eqb (local_name node) "div"
  | _ => false
  end.

Definition _get_sidebar : M W (list DOMNode) :=
  wait_until_finished 5 false nonempty
    (dom_tree <- call CGetDocument (get_document chrome) ;;
     ret (search valid_link dom_tree)).

Definition _wait_requests_finished : M W bool :=
  wait_until_finished 120 default_throw_exception (fun b : bool => b)
    (call (CExecuteScript "window.openHTTPs == 0")
          (execute_script chrome "window.openHTTPs == 0")).

(** The argument of [wait], [delay_between_clicks / 1000] seconds, is kept
    as the number of milliseconds. *)
Definition load_reviews : M W (option string) :=
  let delay := delay_between_clicks (_options self) in
  (if delay =? 0 then ret tt
   else call_ (CWait delay) (wait chrome delay)) ;;;
  nodes <- _get_sidebar ;;
  sidebar <- lift (list_getitem nodes 0) ;;
  call_ (CPerformScroll sidebar) (perform_scroll chrome sidebar) ;;;
  resp <- call (CWaitResponses (_item_response_pattern self))
               (wait_responses chrome (_item_response_pattern self)) ;;
  match resp with
  | Some r =>
      if 0 <=? status r
      then call (CGetResponseBody r 10) (get_response_body chrome r 10)
      else ret None
  | None => ret None
  end.

(** [var initialState = JSON\.parse\(\\'(.*?)\\'\);\s+window] *)
Definition regex_json : Re.Regex :=
  [ Re.Lit "var initialState = JSON.parse(\'";
    Re.LazyGroup Re.AnyChar;
    Re.Lit "\');";
    Re.GreedyPlus Re.Whitespace;
    Re.Lit "window" ].

(** [(?<=\"objectSuggestions\":{},)(.*?),\"photo\":{},] *)
Definition regex_reviews : Re.Regex :=
  [ Re.LookBehind (PyStr.dq ++ "objectSuggestions" ++ PyStr.dq ++ ":{},");
    Re.LazyGroup Re.AnyChar;
    Re.Lit ("," ++ PyStr.dq ++ "photo" ++ PyStr.dq ++ ":{},") ].

(** The four [replace] calls on the extracted window. *)
Definition normalize (reviews_json : string) : string :=
  let reviews_json := PyStr.replace reviews_json (PyStr.cr ++ PyStr.lf) "" in
  let reviews_json := PyStr.replace reviews_json PyStr.lf "" in
  let reviews_json := PyStr.replace reviews_json "\\" "\" in
  let reviews_json := PyStr.replace reviews_json "'" PyStr.dq in
  reviews_json.

(** The [try] block: any exception of [json.loads(...)['review']] gives
    [None]. *)
Definition loads_review (reviews_json : string) : json :=
  match json_loads reviews_json with
  | Some v =>
      match Py.getitem v (JStr "review") with
      | Return x => x
      | Raise _ => JNull
      end
  | None => JNull
  end.

Definition get_internal_reviews : M W json :=
  html <- call CGetHtml (get_html chrome) ;;
  let json_match := Re.search regex_json html in
  blob <- lift (Re.getitem json_match 1) ;;
  let reviews_match := Re.search regex_reviews blob in
  window <- lift (Re.getitem reviews_match 1) ;;
  let reviews_json := "{" ++ window ++ "}" in
  ret (loads_review (normalize reviews_json)).

(** Truth value of the body [load_reviews] returns. *)
Definition doc_truthy (doc : option string) : bool :=
  match doc with
  | Some s => PyStr.truthy s
  | None => false
  end.

(** [for user_id in internal_reviews:
       reviews.append(internal_reviews[user_id])] *)
Fixpoint append_each (internal_reviews : json) (user_ids : list json)
    (reviews : list json) : Outcome (list json) :=
  match user_ids with
  | [] => Return reviews
  | user_id :: user_ids' =>
      match Py.getitem internal_reviews user_id with
      | Return r => append_each internal_reviews user_ids' (reviews ++ [r])%list
      | Raise e => Raise e
      end
  end.

Definition append_internal (reviews : list json) (internal_reviews : json)
  : Outcome (list json) :=
  match Py.iter internal_reviews with
  | Raise e => Raise e
  | Return user_ids => append_each internal_reviews user_ids reviews
  end.

(** [for review in json.loads(doc)['reviews']: reviews.append(review)] *)
Definition append_doc (reviews : list json) (doc : string)
  : Outcome (list json) :=
  match json_loads doc with
  | None => Raise JSONDecodeError
  | Some v =>
      match Py.getitem v (JStr "reviews") with
      | Raise e => Raise e
      | Return rs =>
          match Py.iter rs with
          | Raise e => Raise e
          | Return items => Return (reviews ++ items)%list
          end
      end
  end.

(** What one turn of the [while True] loop ends in. *)
Inductive Turn : Type :=
| Again (reviews : list json) (get_init_html : bool)
| Returned (reviews : list json).

Definition loop_body (reviews : list json) (get_init_html : bool)
  : M W Turn :=
  internal_reviews <-
    (if get_init_html then get_internal_reviews else ret JNull) ;;
  let get_init_html := if get_init_html then false else get_init_html in
  doc <- load_reviews ;;
  reviews <-
    lift (if Py.truthy internal_reviews
          then append_internal reviews internal_reviews
          else Return reviews) ;;
  reviews <-
    lift (match doc with
          | Some s => if PyStr.truthy s then append_doc reviews s
                      else Return reviews
          | None => Return reviews
          end) ;;
  if negb (doc_truthy doc)
  then call_ CStop (stop chrome) ;;; ret (Returned reviews)
  else ret (Again reviews get_init_html).

Fixpoint parse_loop (fuel : nat) (reviews : list json) (get_init_html : bool)
  : M W (list json) :=
  match fuel with
  | O => fun _ => None
  | S fuel' =>
      turn <- loop_body reviews get_init_html ;;
      match turn with
      | Returned reviews' => ret reviews'
      | Again reviews' get_init_html' =>
          parse_loop fuel' reviews' get_init_html'
      end
  end.

(** [parse]: [None] is Python's [None], [Some reviews] the list. *)
Definition parse (fuel : nat) : M W (option (list json)) :=
  call_ (CNavigate (_url self) "https://google.com" 120)
        (navigate chrome (_url self) "https://google.com" 120) ;;;
  responses <- call (CGetResponses 5) (get_responses chrome 5) ;;
  match responses with
  | [] => ret None
  | document_response :: _ =>
      if negb (String.eqb (mimeType document_response) "text/html")
      then raise AssertionError
      else if (status document_response =? 404)
              && skip_404_response (_options self)
      then ret None
      else
        _wait_requests_finished ;;;
        reviews <- parse_loop fuel [] true ;;
        ret (Some reviews)
  end.

End Parser.

(** ** Observing a run *)

(** Number of calls of one kind. *)
Definition count (P : Call -> bool) (l : list Call) : nat :=
  length (filter P l).

(** Calls of the loop other than [stop] and [get_html], and the exceptions
    the loop can raise. *)
Definition inner_call (c : Call) : bool :=
  negb (is_stop c) && negb (is_get_html c).

Definition loop_exn (e : Exn) : bool :=
  match e with
  | AssertionError | TimeoutError => false
  | _ => true
  end.

(** The values [internal_reviews[user_id]] for the [user_ids] in turn. *)
Fixpoint getitems (internal_reviews : json) (user_ids : list json)
  : Outcome (list json) :=
  match user_ids with
  | [] => Return []
  | user_id :: user_ids' =>
      match Py.getitem internal_reviews user_id with
      | Return r =>
          match getitems internal_reviews user_ids' with
          | Return rs => Return (r :: rs)
          | Raise e => Raise e
          end
      | Raise e => Raise e
      end
  end.

Section Observations.

Context {W : Type} (chrome : ChromeRemote W).
Variable json_loads : string -> option json.
Variable self : ReviewsParser.

(** The state [stop] leaves. *)
Definition stopped (st : St W) : St W :=
  {| world := stop chrome (world st); calls := (calls st ++ [CStop])%list |}.

(** The first statement of the loop body. *)
Definition internal_phase (get_init_html : bool) : M W json :=
  if get_init_html then get_internal_reviews chrome json_loads else ret JNull.

(** The two merges of the loop body. *)
Definition merge_internal (reviews : list json) (internal_reviews : json)
  : Outcome (list json) :=
  if Py.truthy internal_reviews
  then append_internal reviews internal_reviews
  else Return reviews.

Definition merge_doc (reviews : list json) (doc : option string)
  : Outcome (list json) :=
  match doc with
  | Some s => if PyStr.truthy s then append_doc json_loads reviews s
              else Return reviews
  | None => Return reviews
  end.

(** How a turn ends once its pagination step has brought no data, in
    state [st2]: the bootstrap records of this turn are merged, the session
    is stopped and the list returned. *)
Definition last_turn (reviews : list json) (internal_reviews : json)
    (st2 : St W) : option (Outcome (list json) * St W) :=
  match merge_internal reviews internal_reviews with
  | Return reviews' => Some (Return reviews', stopped st2)
  | Raise e => Some (Raise e, st2)
  end.

(** The two halves of [load_reviews]: up to the scroll, and from the wait
    for the response on. *)
Definition scroll_phase : M W unit :=
  let delay := delay_between_clicks (_options self) in
  (if delay =? 0 then ret tt
   else call_ (CWait delay) (wait chrome delay)) ;;;
  nodes <- _get_sidebar chrome ;;
  sidebar <- lift (list_getitem nodes 0) ;;
  call_ (CPerformScroll sidebar) (perform_scroll chrome sidebar).

(** The state after the pacing wait of [load_reviews]. *)
Definition after_delay (st : St W) : St W :=
  let delay := delay_between_clicks (_options self) in
  if delay =? 0 then st
  else {| world := wait chrome delay (world st);
          calls := (calls st ++ [CWait delay])%list |}.

(** The state after [get_html]. *)
Definition after_get_html (st : St W) : St W :=
  {| world := snd (get_html chrome (world st));
     calls := (calls st ++ [CGetHtml])%list |}.

Definition fetch_phase : M W (option string) :=
  resp <- call (CWaitResponses (_item_response_pattern self))
               (wait_responses chrome (_item_response_pattern self)) ;;
  match resp with
  | Some r =>
      if 0 <=? status r
      then call (CGetResponseBody r 10) (get_response_body chrome r 10)
      else ret None
  | None => ret None
  end.

(** One of the two textual markers is not found: the bootstrap assignment
    in the markup, or the review window in the blob. *)
Definition markers_absent (html : string) : bool :=
  match Re.search regex_json html with
  | None => true
  | Some m =>
      match Re.getitem (Some m) 1 with
      | Return blob =>
          match Re.search regex_reviews blob with
          | None => true
          | Some _ => false
          end
      | Raise _ => false
      end
  end.

(** What [get_internal_reviews] makes of the markup [get_html] returned. *)
Definition extract (html : string) : Outcome json :=
  match Re.getitem (Re.search regex_json html) 1 with
  | Raise e => Raise e
  | Return blob =>
      match Re.getitem (Re.search regex_reviews blob) 1 with
      | Raise e => Raise e
      | Return window =>
          Return (loads_review json_loads (normalize ("{" ++ window ++ "}")))
      end
  end.

(** The world and the calls after [navigate] and [get_responses]. *)
Definition gate_world (st : St W) : list Response * W :=
  get_responses chrome 5
    (navigate chrome (_url self) "https://google.com" 120 (world st)).

Definition document_responses (st : St W) : list Response :=
  fst (gate_world st).

Definition gate_state (st : St W) : St W :=
  {| world := snd (gate_world st);
     calls := (calls st ++ [CNavigate (_url self) "https://google.com" 120;
                            CGetResponses 5])%list |}.

(** The document passes the content-type check and is not a skipped 404. *)
Definition accepted (document_response : Response) : bool :=
  String.eqb (mimeType document_response) "text/html"
  && negb ((status document_response =? 404)
           && skip_404_response (_options self)).

(** The state in which [parse] enters its loop, if it does. *)
Definition loop_entry (st : St W) : option (St W) :=
  match document_responses st with
  | [] => None
  | document_response :: _ =>
      if accepted document_response then
        match _wait_requests_finished chrome (gate_state st) with
        | Some (Return _, st1) => Some st1
        | _ => None
        end
      else None
  end.

(** The early-failure cases of [parse]. *)
Definition early_failure (st : St W) : Prop :=
  document_responses st = []
  \/ exists document_response rest,
       document_responses st = document_response :: rest
       /\ status document_response = 404
       /\ skip_404_response (_options self) = true.

(** [window.openHTTPs == 0] is false at each of [n + 1] polls from [w]. *)
Fixpoint never_settled (n : nat) (w : W) : bool :=
  let (settled, w') := execute_script chrome "window.openHTTPs == 0" w in
  negb settled
  && match n with
     | O => true
     | S n' => never_settled n' w'
     end.

(** The DOM search finds no sidebar at each of [n + 1] polls from [w]. *)
Fixpoint sidebar_absent (n : nat) (w : W) : bool :=
  let (dom_tree, w') := get_document chrome w in
  negb (nonempty (search valid_link dom_tree))
  && match n with
     | O => true
     | S n' => sidebar_absent n' w'
     end.

(** The loop state after [n] turns that went on. *)
Fixpoint turn_state (n : nat) (reviews : list json) (get_init_html : bool)
    (st : St W) : option (list json * bool * St W) :=
  match n with
  | O => Some (reviews, get_init_html, st)
  | S n' =>
      match loop_body chrome json_loads self reviews get_init_html st with
      | Some (Return (Again reviews' get_init_html'), st') =>
          turn_state n' reviews' get_init_html' st'
      | _ => None
      end
  end.

(** The pagination step of the turn starting in [st] yields no data. *)
Definition no_data (get_init_html : bool) (st : St W) : bool :=
  match internal_phase get_init_html st with
  | Some (Return _, st1) =>
      match load_reviews chrome self st1 with
      | Some (Return doc, _) => negb (doc_truthy doc)
      | _ => true
      end
  | _ => true
  end.

(** Turn [n + 1] of the loop started in [st], if the loop gets there,
    yields no data. *)
Definition dry_at (n : nat) (reviews : list json) (get_init_html : bool)
    (st : St W) : bool :=
  match turn_state n reviews get_init_html st with
  | Some (_, get_init_html', st') => no_data get_init_html' st'
  | None => true
  end.

(** The early returns of [parse], as the code takes them: no document
    response, or a [text/html] document of status 404 with
    [skip_404_response]. *)
Definition early_return (st : St W) : bool :=
  match document_responses st with
  | [] => true
  | document_response :: _ =>
      String.eqb (mimeType document_response) "text/html"
      && ((status document_response =? 404)
          && skip_404_response (_options self))
  end.

(** [parse] returns [None] exactly in the early-failure cases. *)
Definition none_iff_early_failure (fuel : nat) (st : St W) : Prop :=
  (exists st', parse chrome json_loads self fuel st = Some (Return None, st'))
  <-> early_failure st.

(** The timeout of the quiescence wait is not fatal: [parse] goes into
    its loop and does not raise [TimeoutError]. *)
Definition timeout_not_fatal (fuel : nat) (st : St W) : Prop :=
  forall document_response rest,
    document_responses st = document_response :: rest ->
    accepted document_response = true ->
    never_settled (polls_within chrome 120 (world (gate_state st)))
      (world (gate_state st)) = true ->
    (exists st1, loop_entry st = Some st1)
    /\ forall st', parse chrome json_loads self fuel st
                   <> Some (Raise TimeoutError, st').

(** Once the pagination step of the turn starting in [st] has brought no
    data, the list is returned as it stood. *)
Definition returned_unchanged (reviews : list json) (get_init_html : bool)
    (st : St W) : Prop :=
  forall ir st1 doc st2,
    internal_phase get_init_html st = Some (Return ir, st1) ->
    load_reviews chrome self st1 = Some (Return doc, st2) ->
    doc_truthy doc = false ->
    parse_loop chrome json_loads self 1 reviews get_init_html st
    = Some (Return reviews, stopped st2).

(** What [parse] returns: [Some] list. *)
Definition is_list {A} (r : Outcome (option (list A))) : bool :=
  match r with
  | Return (Some _) => true
  | _ => false
  end.

End Observations.

(** ** A scripted session

    A concrete world for running the parser: the session answers from a
    script, and a wait whose script is exhausted returns its not-found
    result. *)

Module Scripted.

Record World : Type := {
  doc_responses : list Response;   (* what [get_responses] returns *)
  quiet_after : option nat;        (* polls until [window.openHTTPs == 0]
                                      holds; [None]: it never does *)
  html : string;                   (* the rendered markup *)
  dom : DOMNode;                   (* the DOM snapshot *)
  pages : list (option Response * option string);
                                   (* per pagination cycle: the response
                                      captured, and its body *)
  pending_body : option string;    (* body of the response last captured *)
  running : bool;                  (* the session has not been stopped *)
  polls_per_unit : nat
}.

Definition set_quiet (w : World) (q : option nat) : World :=
  {| doc_responses := doc_responses w; quiet_after := q; html := html w;
     dom := dom w; pages := pages w; pending_body := pending_body w;
     running := running w; polls_per_unit := polls_per_unit w |}.

Definition set_pages (w : World) (ps : list (option Response * option string))
    (b : option string) : World :=
  {| doc_responses := doc_responses w; quiet_after := quiet_after w;
     html := html w; dom := dom w; pages := ps; pending_body := b;
     running := running w; polls_per_unit := polls_per_unit w |}.

Definition set_running (w : World) (r : bool) : World :=
  {| doc_responses := doc_responses w; quiet_after := quiet_after w;
     html := html w; dom := dom w; pages := pages w;
     pending_body := pending_body w; running := r;
     polls_per_unit := polls_per_unit w |}.

Definition chrome : ChromeRemote World := {|
  navigate := fun _ _ _ w => w;
  get_responses := fun _ w => (doc_responses w, w);
  execute_script := fun _ w =>
    match quiet_after w with
    | Some O => (true, w)
    | Some (S k) => (false, set_quiet w (Some k))
    | None => (false, w)
    end;
  get_html := fun w => (html w, w);
  get_document := fun w => (dom w, w);
  wait := fun _ w => w;
  perform_scroll := fun _ w => w;
  wait_responses := fun _ w =>
    match pages w with
    | [] => (None, w)
    | (r, b) :: ps => (r, set_pages w ps b)
    end;
  get_response_body := fun _ _ w => (pending_body w, w);
  stop := fun w => set_running w false;
  polls_within := fun t w => (polls_per_unit w * Z.to_nat t)%nat
|}.

(** [json.loads] on the documents of the examples, given as a table. *)
Fixpoint loads (table : list (string * json)) (s : string) : option json :=
  match table with
  | [] => None
  | (doc, v) :: table' => if String.eqb s doc then Some v else loads table' s
  end.

Definition start (w : World) : St World := {| world := w; calls := [] |}.

Definition q (s : string) : string := PyStr.dq ++ s ++ PyStr.dq.

Definition options : ParserOptions :=
  {| skip_404_response := true; delay_between_clicks := 0 |}.

Definition parser : ReviewsParser :=
  {| _url := "https://2gis.ru/moscow/firm/1/tab/reviews";
     _options := options;
     _item_response_pattern := item_response_pattern |}.

Definition document : Response :=
  {| status := 200; mimeType := "text/html";
     url := "https://2gis.ru/moscow/firm/1/tab/reviews" |}.

Definition api_response (code : Z) : Response :=
  {| status := code; mimeType := "application/json";
     url := "https://public-api.reviews.2gis.com/2.0/branches/1/reviews?limit=12" |}.

(** A page whose sidebar is found. *)
Definition sidebar : DOMNode := Node "div" [("class", "")] [].

Definition page_dom : DOMNode :=
  Node "html" [] [Node "body" [("class", "main")] [sidebar]].

(** A page without a [div] of empty class. *)
Definition bare_dom : DOMNode :=
  Node "html" [] [Node "body" [("class", "main")] []].

(** Markup carrying a bootstrap blob with one review. *)
Definition blob_html : string :=
  "<script>var initialState = JSON.parse(\'{" ++ q "objectSuggestions"
  ++ ":{},'review':{'u1':'good'}," ++ q "photo"
  ++ ":{},'x':1}\'); window.x = 1;</script>".

Definition blob_json : string :=
  "{" ++ q "review" ++ ":{" ++ q "u1" ++ ":" ++ q "good" ++ "}}".

(** Markup in which the window is not valid JSON. *)
Definition broken_html : string :=
  "<script>var initialState = JSON.parse(\'{" ++ q "objectSuggestions"
  ++ ":{},'review':{'u1':," ++ q "photo"
  ++ ":{},'x':1}\'); window.x = 1;</script>".

Definition batch_json : string :=
  "{" ++ q "reviews" ++ ":[" ++ q "fine" ++ "," ++ q "bad" ++ "]}".

(** The review of the bootstrap blob, and the blob's [review] object. *)
Definition good_review : json := JStr "good".

Definition bootstrap : json := JDict [("u1", good_review)].

Definition table : list (string * json) :=
  [ (blob_json, JDict [("review", bootstrap)]);
    (batch_json, JDict [("reviews", JList [JStr "fine"; JStr "bad"])]) ].

Definition base : World :=
  {| doc_responses := [document]; quiet_after := Some 2%nat;
     html := blob_html; dom := page_dom; pages := [];
     pending_body := None; running := true; polls_per_unit := 3 |}.

Definition with_html (w : World) (h : string) : World :=
  {| doc_responses := doc_responses w; quiet_after := quiet_after w;
     html := h; dom := dom w; pages := pages w;
     pending_body := pending_body w; running := running w;
     polls_per_unit := polls_per_unit w |}.

Definition with_dom (w : World) (d : DOMNode) : World :=
  {| doc_responses := doc_responses w; quiet_after := quiet_after w;
     html := html w; dom := d; pages := pages w;
     pending_body := pending_body w; running := running w;
     polls_per_unit := polls_per_unit w |}.

Definition with_document (w : World) (rs : list Response) : World :=
  {| doc_responses := rs; quiet_after := quiet_after w;
     html := html w; dom := dom w; pages := pages w;
     pending_body := pending_body w; running := running w;
     polls_per_unit := polls_per_unit w |}.

(** The state in which [parse] enters its loop on [w]. *)
Definition entry (w : World) : St World :=
  match loop_entry chrome parser (start w) with
  | Some st => st
  | None => start w
  end.

(** The worlds of the examples. *)
Definition no_marker : World := with_html base "<html></html>".

Definition no_sidebar : World := with_dom base bare_dom.

Definition never_quiet : World := set_quiet base None.

Definition one_page : World :=
  set_pages base [(Some (api_response 200), Some batch_json)] None.


Definition not_found_json : Response :=
  {| status := 404; mimeType := "application/json";
     url := "https://2gis.ru/moscow/firm/1/tab/reviews" |}.

Definition wrong_type_404 : World := with_document base [not_found_json].

(** The pages of the script are left as they are. *)
Definition same_pages (w w' : World) : Prop := pages w' = pages w.

(** The state a computation ends in. *)
Definition after {A} (m : M World A) (st : St World) : St World :=
  match m st with
  | Some (_, st') => st'
  | None => st
  end.

Definition run (fuel : nat) (w : World)
  : option (Outcome (option (list json)) * St World) :=
  parse chrome (loads table) parser fuel (start w).

End Scripted.

(** ** More observations *)

(** The list [reviews] before what an outcome returns. *)
Definition prepend (reviews : list json) (o : Outcome (list json))
  : Outcome (list json) :=
  match o with
  | Return l => Return (reviews ++ l)%list
  | Raise e => Raise e
  end.

Definition is_wait (c : Call) : bool :=
  match c with CWait _ => true | _ => false end.

Definition is_get_document (c : Call) : bool :=
  match c with CGetDocument => true | _ => false end.

(** The character [c] occurs in [s]. *)
Fixpoint occurs (c : ascii) (s : string) : bool :=
  match s with
  | EmptyString => false
  | String a s' => Ascii.eqb c a || occurs c s'
  end.

(** Every character of [s] satisfies [p]. *)
Fixpoint all_chars (p : ascii -> bool) (s : string) : bool :=
  match s with
  | EmptyString => true
  | String a s' => p a && all_chars p s'
  end.

(** The single quote and the backslash. *)
Definition sq : ascii := ascii_of_nat 39.
Definition lf_char : ascii := ascii_of_nat 10.

(** The number of capturing groups of a pattern. *)
Fixpoint count_groups (r : Re.Regex) : nat :=
  match r with
  | [] => O
  | Re.LazyGroup _ :: r' => S (count_groups r')
  | _ :: r' => count_groups r'
  end.

Definition backslash : ascii := ascii_of_nat 92.

(** The pattern has no look-behind. *)
Fixpoint no_lookbehind (r : Re.Regex) : bool :=
  match r with
  | [] => true
  | Re.LookBehind _ :: _ => false
  | _ :: r' => no_lookbehind r'
  end.

(** The markup holds the bootstrap assignment with the blob [g]: the
    opening marker, [g], the closing marker, white space and [window]. *)
Definition has_bootstrap (html g : string) : Prop :=
  exists pre ws post,
    html = pre ++ "var initialState = JSON.parse(\'" ++ g ++ "\');"
               ++ ws ++ "window" ++ post
    /\ ws <> EmptyString
    /\ all_chars Re.isspace ws = true.

(** The blob holds the review window [g]: the sentinel of the object
    suggestions, [g], and the sentinel of the photos. *)
Definition has_window (blob g : string) : Prop :=
  exists pre post,
    blob = pre ++ (PyStr.dq ++ "objectSuggestions" ++ PyStr.dq ++ ":{},")
               ++ g ++ ("," ++ PyStr.dq ++ "photo" ++ PyStr.dq ++ ":{},")
               ++ post.

(** ** Patterns matched for a yes or no

    Where only the existence of a match is used ([bool(re.match(...))],
    [if (url.match(...))]), a pattern is matched by derivatives. *)

Module Rx.

Inductive rx : Type :=
| Nothing
| Eps
| Chr (p : ascii -> bool)
| Seq (r1 r2 : rx)
| Alt (r1 r2 : rx)
| Star (r : rx).

Fixpoint nullable (r : rx) : bool :=
  match r with
  | Nothing => false
  | Eps => true
  | Chr _ => false
  | Seq r1 r2 => nullable r1 && nullable r2
  | Alt r1 r2 => nullable r1 || nullable r2
  | Star _ => true
  end.

Fixpoint deriv (a : ascii) (r : rx) : rx :=
  match r with
  | Nothing => Nothing
  | Eps => Nothing
  | Chr p => if p a then Eps else Nothing
  | Seq r1 r2 =>
      Alt (Seq (deriv a r1) r2) (if nullable r1 then deriv a r2 else Nothing)
  | Alt r1 r2 => Alt (deriv a r1) (deriv a r2)
  | Star r' => Seq (deriv a r') (Star r')
  end.

(** The whole of [s] matches [r]. *)
Fixpoint fullmatch (r : rx) (s : string) : bool :=
  match s with
  | EmptyString => nullable r
  | String a s' => fullmatch (deriv a r) s'
  end.

(** A prefix of [s] matches [r]: a match anchored at the start. *)
Fixpoint prefixmatch (r : rx) (s : string) : bool :=
  nullable r
  || match s with
     | EmptyString => false
     | String a s' => prefixmatch (deriv a r) s'
     end.

Fixpoint lit (s : string) : rx :=
  match s with
  | EmptyString => Eps
  | String a s' => Seq (Chr (Ascii.eqb a)) (lit s')
  end.

Definition plus (r : rx) : rx := Seq r (Star r).

Definition opt (r : rx) : rx := Alt r Eps.

Fixpoint seqs (l : list rx) : rx :=
  match l with
  | [] => Eps
  | r :: l' => Seq r (seqs l')
  end.

(** The texts a pattern matches. *)
Inductive Lang : rx -> string -> Prop :=
| LEps : Lang Eps EmptyString
| LChr p a : p a = true -> Lang (Chr p) (String a EmptyString)
| LSeq r1 r2 s1 s2 : Lang r1 s1 -> Lang r2 s2 -> Lang (Seq r1 r2) (s1 ++ s2)
| LAltL r1 r2 s : Lang r1 s -> Lang (Alt r1 r2) s
| LAltR r1 r2 s : Lang r2 s -> Lang (Alt r1 r2) s
| LStar0 r : Lang (Star r) EmptyString
| LStarS r s1 s2 :
    Lang r s1 -> Lang (Star r) s2 -> Lang (Star r) (s1 ++ s2).

(** The character classes of the patterns. *)
Definition not_slash (a : ascii) : bool := negb (Ascii.eqb a "/"%char).

(** [.] without [re.DOTALL]. *)
Definition dot (a : ascii) : bool := negb (Ascii.eqb a (ascii_of_nat 10)).

Definition is_lf (a : ascii) : bool := Ascii.eqb a (ascii_of_nat 10).

(** [pattern$] under [re.match]: the pattern, then the end of the text or
    the line feed that ends it. *)
Definition match_to_end (r : rx) (s : string) : bool :=
  fullmatch (Seq r (opt (Chr is_lf))) s.

End Rx.

(** [url_pattern]: the pattern it returns, and the pattern as a value. *)
Definition url_pattern : string :=
  "https?://2gis\.[^/]+/[^/]+/.*/tab/reviews".

Definition url_pattern_rx : Rx.rx :=
  Rx.seqs [ Rx.lit "http"; Rx.opt (Rx.Chr (Ascii.eqb "s"%char));
            Rx.lit "://2gis."; Rx.plus (Rx.Chr Rx.not_slash);
            Rx.lit "/"; Rx.plus (Rx.Chr Rx.not_slash);
            Rx.lit "/"; Rx.Star (Rx.Chr Rx.dot); Rx.lit "/tab/reviews" ].

Module GetLinks.

(** [/[^/]+/[^/]+/.*/tab/reviews$] *)
Definition link_rx : Rx.rx :=
  Rx.seqs [ Rx.lit "/"; Rx.plus (Rx.Chr Rx.not_slash);
            Rx.lit "/"; Rx.plus (Rx.Chr Rx.not_slash);
            Rx.lit "/"; Rx.Star (Rx.Chr Rx.dot); Rx.lit "/tab/reviews" ].

(** The predicate of [_get_links]. *)
Definition valid_link (node : DOMNode) : bool :=
  if String.eqb (local_name node) "a" then
    match attr_get "href" (attributes node) with
    | Some href => Rx.match_to_end link_rx href
    | None => false
    end
  else false.

Definition _get_links {W} (chrome : ChromeRemote W) : M W (list DOMNode) :=
  wait_until_finished chrome 5 false nonempty
    (dom_tree <- call CGetDocument (get_document chrome) ;;
     ret (search valid_link dom_tree)).

End GetLinks.

(** The hrefs [_get_links] accepts: three or more segments, the first
    two non-empty and without slash, ending in [/tab/reviews], with at
    most a line feed after it. *)
Definition review_link_form (href : string) : Prop :=
  exists a b c e,
    href = "/" ++ a ++ "/" ++ b ++ "/" ++ c ++ "/tab/reviews" ++ e
    /\ a <> EmptyString /\ all_chars Rx.not_slash a = true
    /\ b <> EmptyString /\ all_chars Rx.not_slash b = true
    /\ all_chars Rx.dot c = true
    /\ (e = EmptyString \/ e = PyStr.lf).

(** The texts that start with a match of [url_pattern]. *)
Definition reviews_url_form (url : string) : Prop :=
  exists s d c m rest,
    url = "http" ++ s ++ "://2gis." ++ d ++ "/" ++ c ++ "/" ++ m
                 ++ "/tab/reviews" ++ rest
    /\ (s = EmptyString \/ s = "s")
    /\ d <> EmptyString /\ all_chars Rx.not_slash d = true
    /\ c <> EmptyString /\ all_chars Rx.not_slash c = true
    /\ all_chars Rx.dot m = true.

(** ** The counter of pending requests

    The script [_add_xhr_counter] injects, as a transition system on the
    page: [window.openHTTPs] and the listeners the wrapper has attached,
    one entry per listener, named by the request object it sits on. *)

Module Xhr.

(** ASCII lower case, for the [i] flag. *)
Definition lower (a : ascii) : ascii :=
  let n := nat_of_ascii a in
  if ((65 <=? n) && (n <=? 90))%nat then ascii_of_nat (n + 32) else a.

Fixpoint lower_str (s : string) : string :=
  match s with
  | EmptyString => EmptyString
  | String a s' => String (lower a) (lower_str s')
  end.

Definition ichr (a : ascii) : Rx.rx :=
  Rx.Chr (fun b => Ascii.eqb (lower a) (lower b)).

Fixpoint ilit (s : string) : Rx.rx :=
  match s with
  | EmptyString => Rx.Eps
  | String a s' => Rx.Seq (ichr a) (ilit s')
  end.

(** [[a-z]] under the [i] flag. *)
Definition is_letter (a : ascii) : bool :=
  let n := nat_of_ascii (lower a) in ((97 <=? n) && (n <=? 122))%nat.

(** [/^https?\:\/\/[^\/]*2gis\.[a-z]+/i] *)
Definition tracked_rx : Rx.rx :=
  Rx.seqs [ ilit "http"; Rx.opt (ichr "s"%char); Rx.lit "://";
            Rx.Star (Rx.Chr Rx.not_slash); ilit "2gis"; Rx.lit ".";
            Rx.plus (Rx.Chr is_letter) ].

(** [url.match(...)] is truthy. *)
Definition tracked (url : string) : bool := Rx.prefixmatch tracked_rx url.

(** The values [window.openHTTPs] takes. *)
Inductive jsval : Type :=
| Undefined
| Number (n : Z)
| NaN.

Record Window : Type := {
  openHTTPs : jsval;
  listeners : list nat
}.

Definition init : Window := {| openHTTPs := Undefined; listeners := [] |}.

(** [if (window.openHTTPs == undefined) window.openHTTPs = 1;
     else window.openHTTPs++;] *)
Definition incr (v : jsval) : jsval :=
  match v with
  | Undefined => Number 1
  | Number n => Number (n + 1)
  | NaN => NaN
  end.

(** [window.openHTTPs--] *)
Definition decr (v : jsval) : jsval :=
  match v with
  | Number n => Number (n - 1)
  | _ => NaN
  end.

Inductive Event : Type :=
| Open (xhr : nat) (url : string)
| ReadyStateChange (xhr : nat) (readyState : nat).

Fixpoint times {A} (n : nat) (f : A -> A) (x : A) : A :=
  match n with
  | O => x
  | S n' => times n' f (f x)
  end.

(** The wrapper of [open]. *)
Definition open (w : Window) (xhr : nat) (url : string) : Window :=
  if tracked url
  then {| openHTTPs := incr (openHTTPs w); listeners := xhr :: listeners w |}
  else w.

(** The event [readystatechange] on [xhr]: each listener on it runs. *)
Definition ready_state_change (w : Window) (xhr readyState : nat) : Window :=
  {| openHTTPs :=
       times (count_occ Nat.eq_dec (listeners w) xhr)
         (fun v => if (readyState =? 4)%nat then decr v else v)
         (openHTTPs w);
     listeners := listeners w |}.

Definition step (w : Window) (e : Event) : Window :=
  match e with
  | Open xhr url => open w xhr url
  | ReadyStateChange xhr readyState => ready_state_change w xhr readyState
  end.

(** The page after a history of events, the latest first. *)
Fixpoint run (h : list Event) : Window :=
  match h with
  | [] => init
  | e :: h' => step (run h') e
  end.

(** [window.openHTTPs == 0] *)
Definition settled (w : Window) : bool :=
  match openHTTPs w with
  | Number 0 => true
  | _ => false
  end.

Definition mem (x : nat) (l : list nat) : bool := existsb (Nat.eqb x) l.

(** The request objects opened, those opened on a tracked URL, and those
    that reached [readyState] 4. *)
Fixpoint opened_ids (h : list Event) : list nat :=
  match h with
  | [] => []
  | Open x _ :: h' => x :: opened_ids h'
  | _ :: h' => opened_ids h'
  end.

Fixpoint tracked_ids (h : list Event) : list nat :=
  match h with
  | [] => []
  | Open x url :: h' =>
      if tracked url then x :: tracked_ids h' else tracked_ids h'
  | _ :: h' => tracked_ids h'
  end.

Fixpoint done_ids (h : list Event) : list nat :=
  match h with
  | [] => []
  | ReadyStateChange x k :: h' =>
      if (k =? 4)%nat then x :: done_ids h' else done_ids h'
  | _ :: h' => done_ids h'
  end.

(** The tracked requests that have not yet reached [readyState] 4. *)
Definition pending (h : list Event) : list nat :=
  filter (fun x => negb (mem x (done_ids h))) (tracked_ids h).

(** Every request object is opened once, and reaches [readyState] 4 once
    at most, after it was opened. *)
Fixpoint single_use (h : list Event) : bool :=
  match h with
  | [] => true
  | Open x _ :: h' => negb (mem x (opened_ids h')) && single_use h'
  | ReadyStateChange x k :: h' =>
      (if (k =? 4)%nat
       then mem x (opened_ids h') && negb (mem x (done_ids h'))
       else true)
      && single_use h'
  end.

(** No event of the history opens a tracked URL. *)
Fixpoint untracked (h : list Event) : bool :=
  match h with
  | [] => true
  | Open _ url :: h' => negb (tracked url) && untracked h'
  | _ :: h' => untracked h'
  end.

(** The URLs the wrapper counts. *)
Definition tracked_form (url : string) : Prop :=
  exists h s host g tld rest,
    url = h ++ s ++ "://" ++ host ++ g ++ "." ++ tld ++ rest
    /\ lower_str h = "http"
    /\ (s = EmptyString \/ lower_str s = "s")
    /\ all_chars Rx.not_slash host = true
    /\ lower_str g = "2gis"
    /\ tld <> EmptyString /\ all_chars is_letter tld = true.

End Xhr.

(** ** The embedding on small inputs *)

Example replace_backslashes :
  PyStr.replace "a\\b\\\c" "\\" "\" = "a\b\\c".
Proof. reflexivity. Qed.

Example replace_without_overlap : PyStr.replace "aaa" "aa" "b" = "ba".
Proof. reflexivity. Qed.

Example normalize_window :
  normalize ("{'review':" ++ PyStr.lf ++ "{'u1':'good'}}") = Scripted.blob_json.
Proof. reflexivity. Qed.

Example search_is_lazy :
  Re.search regex_json
    "var initialState = JSON.parse(\'A\');  window.a = 1; f(\'B\'); window"
  = Some {| Re.groups := ["A"] |}.
Proof. reflexivity. Qed.

Example search_backtracks :
  Re.search regex_json
    "var initialState = JSON.parse(\'A\');window.a = 1; f(\'B\'); window"
  = Some {| Re.groups := ["A\');window.a = 1; f(\'B"] |}.
Proof. reflexivity. Qed.

Example search_without_marker : Re.search regex_json "<html></html>" = None.
Proof. reflexivity. Qed.

Example search_looks_behind :
  Re.search regex_reviews
    ("{" ++ Scripted.q "objectSuggestions" ++ ":{},'review':{},"
     ++ Scripted.q "photo" ++ ":{},")
  = Some {| Re.groups := ["'review':{}"] |}.
Proof. reflexivity. Qed.

Example getitem_negative_index :
  Py.getitem (JList [JInt 1; JInt 2]) (JInt (-1)) = Return (JInt 2).
Proof. reflexivity. Qed.

Example getitem_missing_key :
  Py.getitem (JDict [("reviews", JList [])]) (JStr "review") = Raise KeyError.
Proof. reflexivity. Qed.

Example extract_blob :
  extract (Scripted.loads Scripted.table) Scripted.blob_html
  = Return Scripted.bootstrap.
Proof. reflexivity. Qed.

Example extract_broken_window :
  extract (Scripted.loads Scripted.table) Scripted.broken_html = Return JNull.
Proof. reflexivity. Qed.

(** The bootstrap records alone, when no pagination response arrives. *)
Example parse_bootstrap_only :
  option_map fst (Scripted.run 1 Scripted.base)
  = Some (Return (Some [Scripted.good_review])).
Proof. reflexivity. Qed.

(** No bootstrap records (the window is broken), two batches, then none. *)
Example parse_two_batches :
  option_map fst
    (Scripted.run 3
       (Scripted.with_html
          (Scripted.set_pages Scripted.base
             [(Some (Scripted.api_response 200), Some Scripted.batch_json);
              (Some (Scripted.api_response 200), Some Scripted.batch_json)]
             None)
          Scripted.broken_html))
  = Some (Return (Some [JStr "fine"; JStr "bad"; JStr "fine"; JStr "bad"])).
Proof. reflexivity. Qed.

(** The loop is cut off when the fuel is less than the turns it takes. *)
Example parse_out_of_fuel :
  Scripted.run 1 Scripted.one_page = None.
Proof. reflexivity. Qed.

Example parse_no_document :
  option_map fst (Scripted.run 0 (Scripted.with_document Scripted.base []))
  = Some (Return None).
Proof. reflexivity. Qed.

Example parse_skipped_404 :
  option_map fst
    (Scripted.run 0
       (Scripted.with_document Scripted.base
          [{| status := 404; mimeType := "text/html"; url := "" |}]))
  = Some (Return None).
Proof. reflexivity. Qed.

(** ** Running computations *)

Section Runs.

Context {W : Type}.

Lemma bind_return {A B} (m : M W A) (k : A -> M W B) st a st1 :
  m st = Some (Return a, st1) -> bind m k st = k a st1.
Proof. intros H. unfold bind. now rewrite H. Qed.

Lemma bind_raise {A B} (m : M W A) (k : A -> M W B) st e st1 :
  m st = Some (Raise e, st1) -> bind m k st = Some (Raise e, st1).
Proof. intros H. unfold bind. now rewrite H. Qed.

Lemma bind_inv {A B} (m : M W A) (k : A -> M W B) st r st' :
  bind m k st = Some (r, st') ->
  (exists a st1, m st = Some (Return a, st1) /\ k a st1 = Some (r, st'))
  \/ (exists e, m st = Some (Raise e, st') /\ r = Raise e).
Proof.
  unfold bind. destruct (m st) as [[[a | e] st1] |]; intros H.
  - left. now exists a, st1.
  - right. exists e. now inversion H.
  - discriminate.
Qed.

Lemma bind_assoc {A B C} (m : M W A) (k : A -> M W B) (h : B -> M W C) st :
  bind (bind m k) h st = bind m (fun a => bind (k a) h) st.
Proof. unfold bind. now destruct (m st) as [[[a | e] st1] |]. Qed.

Lemma bind_ext {A B} (m : M W A) (k k' : A -> M W B) st :
  (forall a st1, k a st1 = k' a st1) -> bind m k st = bind m k' st.
Proof.
  intros H. unfold bind. destruct (m st) as [[[a | e] st1] |]; auto.
Qed.

Lemma total_ret {A} (a : A) : total (ret a : M W A).
Proof. intros st. now exists (Return a), st. Qed.

Lemma total_raise {A} e : total (@raise W A e).
Proof. intros st. now exists (Raise e), st. Qed.

Lemma total_lift {A} (o : Outcome A) : total (@lift W A o).
Proof. intros st. now exists o, st. Qed.

Lemma total_call {A} c (op : W -> A * W) : total (call c op).
Proof.
  intros st. unfold call. destruct (op (world st)) as [a w].
  now eexists _, _.
Qed.

Lemma total_bind {A B} (m : M W A) (k : A -> M W B) :
  total m -> (forall a, total (k a)) -> total (bind m k).
Proof.
  intros Hm Hk st. destruct (Hm st) as (r & st1 & H).
  destruct r as [a | e].
  - rewrite (bind_return _ _ _ H). apply Hk.
  - rewrite (bind_raise _ _ _ H). now eexists _, _.
Qed.

Section Respects.

Variable ok_call : Call -> bool.
Variable ok_exn : Exn -> bool.

Lemma respects_ret {A} (a : A) :
  respects ok_call ok_exn (ret a : M W A).
Proof.
  intros st r st' H. inversion H; subst. split.
  - exists []. now rewrite app_nil_r.
  - discriminate.
Qed.

Lemma respects_raise {A} e :
  ok_exn e = true -> respects ok_call ok_exn (@raise W A e).
Proof.
  intros He st r st' H. inversion H; subst. split.
  - exists []. now rewrite app_nil_r.
  - intros e' E. now inversion E; subst.
Qed.

Lemma respects_lift {A} (o : Outcome A) :
  (forall e, o = Raise e -> ok_exn e = true) ->
  respects ok_call ok_exn (@lift W A o).
Proof.
  intros Ho st r st' H. inversion H; subst. split.
  - exists []. now rewrite app_nil_r.
  - exact Ho.
Qed.

Lemma respects_call {A} c (op : W -> A * W) :
  ok_call c = true -> respects ok_call ok_exn (call c op).
Proof.
  intros Hc st r st'. unfold call. destruct (op (world st)) as [a w].
  intros H. inversion H; subst. split.
  - exists [c]. cbn. now rewrite Hc.
  - discriminate.
Qed.

Lemma respects_bind {A B} (m : M W A) (k : A -> M W B) :
  respects ok_call ok_exn m -> (forall a, respects ok_call ok_exn (k a)) ->
  respects ok_call ok_exn (bind m k).
Proof.
  intros Hm Hk st r st' H.
  destruct (bind_inv _ _ _ H) as [(a & st1 & H1 & H2) | (e & H1 & ->)].
  - destruct (Hm _ _ _ H1) as [(l1 & E1 & F1) _].
    destruct (Hk a _ _ _ H2) as [(l2 & E2 & F2) Hr].
    split; [| exact Hr].
    exists (l1 ++ l2)%list. rewrite E2, E1, app_assoc. split; [reflexivity |].
    rewrite forallb_app, F1, F2. reflexivity.
  - destruct (Hm _ _ _ H1) as [Hl Hr]. split; [exact Hl |].
    intros e' E. inversion E; subst. now apply Hr.
Qed.

End Respects.

Section Keeps.

Variable R : W -> W -> Prop.
Hypothesis R_refl : forall w, R w w.
Hypothesis R_trans : forall w1 w2 w3, R w1 w2 -> R w2 w3 -> R w1 w3.

Lemma keeps_ret {A} (a : A) : keeps R (ret a : M W A).
Proof. intros st r st' H. inversion H; subst. apply R_refl. Qed.

Lemma keeps_raise {A} e : keeps R (@raise W A e).
Proof. intros st r st' H. inversion H; subst. apply R_refl. Qed.

Lemma keeps_lift {A} (o : Outcome A) : keeps R (@lift W A o).
Proof. intros st r st' H. inversion H; subst. apply R_refl. Qed.

Lemma keeps_call {A} c (op : W -> A * W) :
  (forall w, R w (snd (op w))) -> keeps R (call c op).
Proof.
  intros Hop st r st'. unfold call.
  pose proof (Hop (world st)) as Hw. destruct (op (world st)) as [a w].
  intros H. inversion H; subst. exact Hw.
Qed.

Lemma keeps_bind {A B} (m : M W A) (k : A -> M W B) :
  keeps R m -> (forall a, keeps R (k a)) -> keeps R (bind m k).
Proof.
  intros Hm Hk st r st' H.
  destruct (bind_inv _ _ _ H) as [(a & st1 & H1 & H2) | (e & H1 & _)].
  - exact (R_trans (Hm _ _ _ H1) (Hk a _ _ _ H2)).
  - exact (Hm _ _ _ H1).
Qed.

End Keeps.

End Runs.

(** ** Facts about the parts of [parse] *)

Lemma count_app P l1 l2 : count P (l1 ++ l2) = (count P l1 + count P l2)%nat.
Proof. unfold count. now rewrite filter_app, length_app. Qed.

Lemma count_none P ok l :
  (forall c, ok c = true -> P c = false) ->
  forallb ok l = true -> count P l = O.
Proof.
  intros Hok. induction l as [| c l IH]; cbn; [reflexivity |].
  intros H. apply andb_prop in H as [Hc Hl].
  unfold count in *. cbn. rewrite (Hok _ Hc). now apply IH.
Qed.

Ltac bind_cases H :=
  apply bind_inv in H;
  let e := fresh "e" in
  destruct H as [(?a & ?st1 & ?H1 & ?H2) | (e & ?H1 & ?Hr)];
  [| match goal with
     | Hx : ?r = Raise e |- _ => first [subst r | inversion Hx; subst e]
     end].

Section ParserFacts.

Context {W : Type} (chrome : ChromeRemote W).
Variable json_loads : string -> option json.
Variable self : ReviewsParser.

Lemma total_poll {A} (finished : A -> bool) (func : M W A) n :
  total func -> total (poll finished func n).
Proof.
  intros Hf. induction n as [| n IH]; cbn [poll];
    (apply total_bind; [exact Hf | intros r; destruct (finished r)]);
    auto using total_ret.
Qed.

Lemma total_wait_until_finished {A} t throw (finished : A -> bool)
    (func : M W A) :
  total func -> total (wait_until_finished chrome t throw finished func).
Proof.
  intros Hf st. unfold wait_until_finished.
  apply total_bind; [now apply total_poll |].
  intros [r b]. cbn. destruct b; [apply total_ret |].
  destruct throw; [apply total_raise | apply total_ret].
Qed.

Lemma respects_poll {A} ok_call ok_exn (finished : A -> bool)
    (func : M W A) n :
  respects ok_call ok_exn func ->
  respects ok_call ok_exn (poll finished func n).
Proof.
  intros Hf. induction n as [| n IH]; cbn [poll];
    (apply respects_bind; [exact Hf | intros r; destruct (finished r)]);
    auto using respects_ret.
Qed.

Lemma respects_wait_until_finished {A} ok_call ok_exn t throw
    (finished : A -> bool) (func : M W A) :
  respects ok_call ok_exn func ->
  (throw = true -> ok_exn TimeoutError = true) ->
  respects ok_call ok_exn (wait_until_finished chrome t throw finished func).
Proof.
  intros Hf Ht st. unfold wait_until_finished.
  apply respects_bind; [now apply respects_poll |].
  intros [r b]. cbn. destruct b; [apply respects_ret |].
  destruct throw; [apply respects_raise; auto | apply respects_ret].
Qed.

Lemma keeps_poll {A} (R : W -> W -> Prop) (finished : A -> bool)
    (func : M W A) n :
  (forall w, R w w) ->
  (forall w1 w2 w3, R w1 w2 -> R w2 w3 -> R w1 w3) ->
  keeps R func -> keeps R (poll finished func n).
Proof.
  intros Hr Ht Hf. induction n as [| n IH]; cbn [poll];
    (apply keeps_bind; [exact Ht | exact Hf | intros r; destruct (finished r)]);
    auto using keeps_ret.
Qed.

Lemma keeps_wait_until_finished {A} (R : W -> W -> Prop) t throw
    (finished : A -> bool) (func : M W A) :
  (forall w, R w w) ->
  (forall w1 w2 w3, R w1 w2 -> R w2 w3 -> R w1 w3) ->
  keeps R func ->
  keeps R (wait_until_finished chrome t throw finished func).
Proof.
  intros Hr Ht Hf st. unfold wait_until_finished.
  apply keeps_bind; [exact Ht | now apply keeps_poll |].
  intros [r b]. cbn. destruct b; [now apply keeps_ret |].
  destruct throw; [now apply keeps_raise | now apply keeps_ret].
Qed.

Lemma total__get_sidebar : total (_get_sidebar chrome).
Proof.
  apply total_wait_until_finished, total_bind;
    [apply total_call | intros; apply total_ret].
Qed.

Lemma total__wait_requests_finished : total (_wait_requests_finished chrome).
Proof. apply total_wait_until_finished, total_call. Qed.

Lemma total_load_reviews : total (load_reviews chrome self).
Proof.
  unfold load_reviews. cbv zeta.
  apply total_bind.
  { destruct (_ =? 0); [apply total_ret | apply total_call]. }
  intros _. apply total_bind; [apply total__get_sidebar |].
  intros nodes. apply total_bind; [apply total_lift |].
  intros sidebar. apply total_bind; [apply total_call |].
  intros _. apply total_bind; [apply total_call |].
  intros [r |]; [| apply total_ret].
  destruct (0 <=? status r); [apply total_call | apply total_ret].
Qed.

Lemma total_get_internal_reviews :
  total (get_internal_reviews chrome json_loads).
Proof.
  unfold get_internal_reviews.
  apply total_bind; [apply total_call |].
  intros html. apply total_bind; [apply total_lift |].
  intros blob. apply total_bind; [apply total_lift |].
  intros window. apply total_ret.
Qed.

Lemma total_loop_body reviews g :
  total (loop_body chrome json_loads self reviews g).
Proof.
  unfold loop_body.
  apply total_bind.
  { destruct g; [apply total_get_internal_reviews | apply total_ret]. }
  intros ir. cbv zeta. apply total_bind; [apply total_load_reviews |].
  intros doc. apply total_bind; [apply total_lift |].
  intros rs1. apply total_bind; [apply total_lift |].
  intros rs2. destruct (negb (doc_truthy doc)); [| apply total_ret].
  apply total_bind; [apply total_call | intros; apply total_ret].
Qed.

Lemma respects__get_sidebar ok_call ok_exn :
  ok_call CGetDocument = true ->
  respects ok_call ok_exn (_get_sidebar chrome).
Proof.
  intros H. apply respects_wait_until_finished; [| discriminate].
  apply respects_bind; [now apply respects_call |].
  intros; apply respects_ret.
Qed.

Lemma respects_load_reviews :
  respects inner_call loop_exn (load_reviews chrome self).
Proof.
  unfold load_reviews. cbv zeta.
  apply respects_bind.
  { destruct (_ =? 0); [apply respects_ret | now apply respects_call]. }
  intros _. apply respects_bind; [now apply respects__get_sidebar |].
  intros nodes. apply respects_bind.
  { apply respects_lift. unfold list_getitem.
    destruct (nth_error nodes 0); intros e E; now inversion E. }
  intros sidebar. apply respects_bind; [now apply respects_call |].
  intros _. apply respects_bind; [now apply respects_call |].
  intros [r |]; [| apply respects_ret].
  destruct (0 <=? status r); [now apply respects_call | apply respects_ret].
Qed.

Lemma getitem_exn (m : option Re.Match) i e :
  Re.getitem m i = Raise e -> loop_exn e = true.
Proof.
  unfold Re.getitem. destruct m as [m |]; [| intros E; now inversion E].
  destruct (nth_error _ _); intros E; now inversion E.
Qed.

Lemma respects_get_internal_reviews :
  respects (fun c => negb (is_stop c)) loop_exn
    (get_internal_reviews chrome json_loads).
Proof.
  unfold get_internal_reviews.
  apply respects_bind; [now apply respects_call |].
  intros html. apply respects_bind.
  { apply respects_lift. intros e. apply getitem_exn. }
  intros blob. apply respects_bind.
  { apply respects_lift. intros e. apply getitem_exn. }
  intros window. apply respects_ret.
Qed.

End ParserFacts.

Lemma py_getitem_exn v k e : Py.getitem v k = Raise e -> loop_exn e = true.
Proof.
  intros Eg.
  destruct v as [| | | | s | l | kvs], k as [| | | | s' | l' | kvs'];
    cbn in Eg; unfold Py.seq_getitem in Eg;
    repeat match type of Eg with
           | context [match ?o with _ => _ end] => destruct o
           end; now inversion Eg.
Qed.

Lemma py_iter_exn v e : Py.iter v = Raise e -> loop_exn e = true.
Proof. intros E. destruct v; now inversion E. Qed.

Lemma append_each_exn ir ids rs e :
  append_each ir ids rs = Raise e -> loop_exn e = true.
Proof.
  revert rs. induction ids as [| i ids IH]; intros rs; cbn.
  - discriminate.
  - destruct (Py.getitem ir i) as [x | e1] eqn:Eg; [apply IH |].
    intros E; inversion E; subst. exact (py_getitem_exn _ _ Eg).
Qed.

Lemma merge_internal_exn reviews ir e :
  merge_internal reviews ir = Raise e -> loop_exn e = true.
Proof.
  unfold merge_internal, append_internal.
  destruct (Py.truthy ir); [| discriminate].
  destruct (Py.iter ir) as [ids | e0] eqn:Eit.
  - apply append_each_exn.
  - intros E; inversion E; subst. exact (py_iter_exn _ Eit).
Qed.

Lemma merge_doc_exn (json_loads : string -> option json) rs doc e :
  merge_doc json_loads rs doc = Raise e -> loop_exn e = true.
Proof.
  unfold merge_doc, append_doc.
  destruct doc as [s |]; [| discriminate].
  destruct (PyStr.truthy s); [| discriminate].
  destruct (json_loads s) as [v |]; [| intros E; now inversion E].
  destruct (Py.getitem v (JStr "reviews")) as [x | e1] eqn:Eg.
  - destruct (Py.iter x) as [its | e2] eqn:Eit; [discriminate |].
    intros E; inversion E; subst. exact (py_iter_exn _ Eit).
  - intros E; inversion E; subst. exact (py_getitem_exn _ _ Eg).
Qed.

Ltac close_calls :=
  repeat split; auto;
  try (intros; discriminate);
  try match goal with
      | |- forall e, _ = Raise e -> _ =>
          let E := fresh "E" in
          intros ? E; first [discriminate | inversion E; subst; auto]
      | |- forall rs g, _ = Return _ -> _ =>
          let E := fresh "E" in
          intros ? ? E; first [discriminate | inversion E; subst; auto]
      end.

Section LoopFacts.

Context {W : Type} (chrome : ChromeRemote W).
Variable json_loads : string -> option json.
Variable self : ReviewsParser.

Lemma call_run {A} c (op : W -> A * W) (st : St W) :
  call c op st
  = Some (Return (fst (op (world st))),
          {| world := snd (op (world st)); calls := (calls st ++ [c])%list |}).
Proof. unfold call. now destruct (op (world st)). Qed.

Lemma get_internal_reviews_run st :
  get_internal_reviews chrome json_loads st
  = Some (extract json_loads (fst (get_html chrome (world st))),
          {| world := snd (get_html chrome (world st));
             calls := (calls st ++ [CGetHtml])%list |}).
Proof.
  unfold get_internal_reviews, extract. unfold bind at 1. rewrite call_run.
  cbn [fst snd]. unfold bind at 1, lift at 1.
  destruct (Re.getitem (Re.search regex_json _) 1) as [blob | e];
    [| reflexivity].
  unfold bind at 1, lift at 1.
  destruct (Re.getitem (Re.search regex_reviews blob) 1); reflexivity.
Qed.

(** One turn of the loop, once its two calls have returned. *)
Lemma loop_body_run reviews g st ir st1 doc st2 :
  internal_phase chrome json_loads g st = Some (Return ir, st1) ->
  load_reviews chrome self st1 = Some (Return doc, st2) ->
  loop_body chrome json_loads self reviews g st
  = match merge_internal reviews ir with
    | Raise e => Some (Raise e, st2)
    | Return rs1 =>
        match merge_doc json_loads rs1 doc with
        | Raise e => Some (Raise e, st2)
        | Return rs2 =>
            if doc_truthy doc then Some (Return (Again rs2 false), st2)
            else Some (Return (Returned rs2), stopped chrome st2)
        end
    end.
Proof.
  intros Hi Hl. unfold loop_body.
  fold (internal_phase chrome json_loads g).
  rewrite (bind_return _ _ _ Hi). cbv zeta.
  rewrite (bind_return _ _ _ Hl).
  fold (merge_internal reviews ir).
  destruct (merge_internal reviews ir) as [rs1 | e]; [| reflexivity].
  unfold bind at 1, lift at 1.
  fold (merge_doc json_loads rs1 doc).
  destruct (merge_doc json_loads rs1 doc) as [rs2 | e]; [| reflexivity].
  unfold bind at 1, lift at 1.
  destruct (doc_truthy doc); cbn [negb].
  - destruct g; reflexivity.
  - unfold bind, call_. rewrite call_run. reflexivity.
Qed.

(** A turn whose pagination step brings no data is the last one. *)
Lemma parse_loop_last_turn fuel reviews g st ir st1 doc st2 :
  internal_phase chrome json_loads g st = Some (Return ir, st1) ->
  load_reviews chrome self st1 = Some (Return doc, st2) ->
  doc_truthy doc = false ->
  parse_loop chrome json_loads self (S fuel) reviews g st
  = last_turn chrome reviews ir st2.
Proof.
  intros Hi Hl Hd. cbn [parse_loop]. unfold bind at 1.
  rewrite (loop_body_run reviews _ _ Hi Hl), Hd. unfold last_turn.
  destruct (merge_internal reviews ir) as [rs1 | e]; [| reflexivity].
  assert (Hm : merge_doc json_loads rs1 doc = Return rs1).
  { unfold merge_doc. destruct doc as [s |]; [| reflexivity].
    cbn in Hd. now rewrite Hd. }
  rewrite Hm. reflexivity.
Qed.

Lemma total_internal_phase g : total (internal_phase chrome json_loads g).
Proof.
  destruct g; [apply total_get_internal_reviews | apply total_ret].
Qed.

(** The calls and the outcome of one turn: [get_html] is called first, and
    only when [get_init_html] holds. *)
Lemma loop_body_calls reviews g st r st' :
  loop_body chrome json_loads self reviews g st = Some (r, st') ->
  exists l,
    calls st' = (calls st ++ (if g then [CGetHtml] else []) ++ l)%list
    /\ count is_get_html l = O
    /\ count is_stop l
       = (match r with Return (Returned _) => 1 | _ => 0 end)%nat
    /\ (forall e, r = Raise e -> loop_exn e = true)
    /\ (forall rs g', r = Return (Again rs g') -> g' = false)
    /\ (forall rs, r = Return (Returned rs) ->
        exists st2, st' = stopped chrome st2).
Proof.
  intros H. set (l0 := if g then [CGetHtml] else []).
  assert (Hint : forall ri sti,
             internal_phase chrome json_loads g st = Some (ri, sti) ->
             calls sti = (calls st ++ l0)%list
             /\ (forall e, ri = Raise e -> loop_exn e = true)).
  { subst l0. destruct g; intros ri sti Hi.
    - pose proof (respects_get_internal_reviews chrome json_loads _ Hi)
        as [_ Hexn].
      unfold internal_phase in Hi. rewrite get_internal_reviews_run in Hi.
      inversion Hi; subst. now split.
    - inversion Hi; subst. rewrite app_nil_r. split; auto. discriminate. }
  destruct (total_internal_phase g st) as (ri & sti & Hi).
  destruct (Hint _ _ Hi) as (E0 & X0).
  destruct ri as [ir | e].
  2:{ unfold loop_body in H. fold (internal_phase chrome json_loads g) in H.
      rewrite (bind_raise _ _ _ Hi) in H. inversion H; subst.
      exists []. rewrite app_nil_r. close_calls. }
  destruct (total_load_reviews chrome self sti) as (rl & st2 & Hl).
  destruct (respects_load_reviews chrome self _ Hl) as [(l1 & E1 & F1) X1].
  assert (G1 : count is_get_html l1 = O).
  { apply (count_none _ inner_call); [| exact F1].
    intros c Hc. unfold inner_call in Hc. apply andb_prop in Hc as [_ Hc].
    now apply negb_true_iff in Hc. }
  assert (S1 : count is_stop l1 = O).
  { apply (count_none _ inner_call); [| exact F1].
    intros c Hc. unfold inner_call in Hc. apply andb_prop in Hc as [Hc _].
    now apply negb_true_iff in Hc. }
  assert (E2 : calls st2 = (calls st ++ l0 ++ l1)%list).
  { now rewrite E1, E0, app_assoc. }
  destruct rl as [doc | e].
  2:{ unfold loop_body in H. fold (internal_phase chrome json_loads g) in H.
      rewrite (bind_return _ _ _ Hi) in H. cbv zeta in H.
      rewrite (bind_raise _ _ _ Hl) in H. inversion H; subst.
      exists l1. close_calls. }
  rewrite (loop_body_run reviews _ _ Hi Hl) in H.
  pose proof (merge_internal_exn reviews ir) as Xi.
  pose proof (fun rs => merge_doc_exn json_loads rs doc) as Xd.
  destruct (merge_internal reviews ir) as [rs1 | e].
  2:{ inversion H; subst. exists l1. close_calls. }
  destruct (merge_doc json_loads rs1 doc) as [rs2 | e] eqn:Em.
  2:{ inversion H; subst. exists l1. close_calls. now apply (Xd rs1). }
  destruct (doc_truthy doc); inversion H; subst.
  - exists l1. close_calls.
  - exists (l1 ++ [CStop])%list. cbn [stopped calls].
    rewrite E2, !count_app, G1, S1, <- !app_assoc.
    repeat split; auto; try (intros; discriminate).
    intros rs _. now exists st2.
Qed.

End LoopFacts.

Section ParseFacts.

Context {W : Type} (chrome : ChromeRemote W).
Variable json_loads : string -> option json.
Variable self : ReviewsParser.

(** The calls and the outcome of the loop. *)
Lemma parse_loop_calls fuel : forall reviews g st r st',
  parse_loop chrome json_loads self fuel reviews g st = Some (r, st') ->
  exists l,
    calls st' = (calls st ++ (if g then [CGetHtml] else []) ++ l)%list
    /\ count is_get_html l = O
    /\ count is_stop l = (match r with Return _ => 1 | Raise _ => 0 end)%nat
    /\ (forall e, r = Raise e -> loop_exn e = true)
    /\ (forall rs, r = Return rs -> exists st2, st' = stopped chrome st2).
Proof.
  induction fuel as [| fuel IH]; intros reviews g st r st' H;
    [discriminate |].
  cbn [parse_loop] in H. bind_cases H.
  - destruct (loop_body_calls _ _ _ _ _ _ H1)
      as (l1 & E1 & G1 & S1 & _ & A1 & R1).
    destruct a as [rs g' | rs].
    + rewrite (A1 _ _ eq_refl) in H2.
      destruct (IH _ _ _ _ _ H2) as (l2 & E2 & G2 & S2 & X2 & R2).
      exists (l1 ++ l2)%list. cbn [app] in E2.
      rewrite E2, E1, !count_app, G1, G2, S1, S2, <- !app_assoc.
      repeat split; auto.
    + inversion H2; subst. exists l1. repeat split; auto; try discriminate.
      intros rs' _. exact (R1 _ eq_refl).
  - destruct (loop_body_calls _ _ _ _ _ _ H1)
      as (l1 & E1 & G1 & S1 & X1 & _).
    exists l1. repeat split; auto; try discriminate.
    intros e0 E; inversion E; subst. now apply X1.
Qed.

Lemma append_each_getitems ir ids : forall rs,
  append_each ir ids rs
  = match getitems ir ids with
    | Return xs => Return (rs ++ xs)%list
    | Raise e => Raise e
    end.
Proof.
  induction ids as [| i ids IH]; intros rs; cbn.
  - now rewrite app_nil_r.
  - destruct (Py.getitem ir i) as [v | e]; [| reflexivity].
    rewrite IH. destruct (getitems ir ids); [| reflexivity].
    now rewrite <- app_assoc.
Qed.

Lemma merge_internal_app reviews ir rs :
  merge_internal reviews ir = Return rs ->
  exists blob, merge_internal [] ir = Return blob
               /\ rs = (reviews ++ blob)%list.
Proof.
  unfold merge_internal, append_internal.
  destruct (Py.truthy ir).
  - destruct (Py.iter ir) as [ids |]; [| discriminate].
    rewrite !append_each_getitems.
    destruct (getitems ir ids) as [xs |]; [| discriminate].
    intros E; inversion E; subst. now exists xs.
  - intros E; inversion E; subst. exists []. now rewrite app_nil_r.
Qed.

Lemma lookup_app_fresh k v pre post :
  ~ In k (map fst pre) ->
  Py.lookup k (pre ++ (k, v) :: post) = Some v.
Proof.
  induction pre as [| [k' v'] pre IH]; cbn; intros Hn.
  - now rewrite String.eqb_refl.
  - destruct (String.eqb k k') eqn:E.
    + apply String.eqb_eq in E. subst. exfalso. apply Hn. now left.
    + apply IH. intros C. apply Hn. now right.
Qed.

Lemma getitems_dict pre : forall post,
  NoDup (map fst (pre ++ post)) ->
  getitems (JDict (pre ++ post)) (map (fun kv => JStr (fst kv)) post)
  = Return (map snd post).
Proof.
  intros post. revert pre.
  induction post as [| [k v] post IH]; intros pre Hn; [reflexivity |].
  cbn [map getitems fst snd Py.getitem].
  rewrite lookup_app_fresh.
  2:{ rewrite map_app in Hn. cbn in Hn. apply NoDup_remove_2 in Hn.
      intros C. apply Hn. apply in_or_app. now left. }
  replace (pre ++ (k, v) :: post)%list with ((pre ++ [(k, v)]) ++ post)%list
    by now rewrite <- app_assoc.
  rewrite IH; [reflexivity |]. now rewrite <- app_assoc.
Qed.

(** The records of a bootstrap object are appended in the order of its
    keys. *)
Lemma merge_internal_object reviews kvs :
  NoDup (map fst kvs) ->
  merge_internal reviews (JDict kvs) = Return (reviews ++ map snd kvs)%list.
Proof.
  intros Hn. unfold merge_internal, append_internal. cbn [Py.truthy Py.iter].
  destruct kvs as [| kv kvs]; [cbn; now rewrite app_nil_r |].
  rewrite append_each_getitems.
  pose proof (getitems_dict [] (kv :: kvs) Hn) as G. cbn [app] in G.
  now rewrite G.
Qed.

(** A truthy bootstrap value that is neither an object nor an array
    cannot be iterated and subscripted. *)
Lemma merge_internal_scalar reviews ir :
  Py.truthy ir = true ->
  (forall kvs, ir <> JDict kvs) ->
  (forall l, ir <> JList l) ->
  merge_internal reviews ir = Raise TypeError.
Proof.
  intros Ht Hd Hlist. unfold merge_internal, append_internal. rewrite Ht.
  destruct ir as [| b | z | f | s | l | kvs]; cbn in *;
    try reflexivity; try discriminate.
  - destruct s as [| a s]; [discriminate |]. reflexivity.
  - now elim (Hlist l).
  - now elim (Hd kvs).
Qed.

Lemma merge_doc_app reviews doc rs :
  merge_doc json_loads reviews doc = Return rs ->
  exists batch, merge_doc json_loads [] doc = Return batch
                /\ rs = (reviews ++ batch)%list.
Proof.
  unfold merge_doc, append_doc.
  destruct doc as [s |].
  2:{ intros E; inversion E; subst. exists []. now rewrite app_nil_r. }
  destruct (PyStr.truthy s).
  2:{ intros E; inversion E; subst. exists []. now rewrite app_nil_r. }
  destruct (json_loads s) as [v |]; [| discriminate].
  destruct (Py.getitem v (JStr "reviews")) as [x |]; [| discriminate].
  destruct (Py.iter x) as [items |]; [| discriminate].
  intros E; inversion E; subst. now exists items.
Qed.

(** The loop only appends to the list it is given. *)
Lemma parse_loop_extends fuel : forall reviews g st l st',
  parse_loop chrome json_loads self fuel reviews g st = Some (Return l, st') ->
  exists rest, l = (reviews ++ rest)%list.
Proof.
  induction fuel as [| fuel IH]; intros reviews g st l st' H;
    [discriminate |].
  destruct (total_internal_phase chrome json_loads g st) as (ri & st1 & Hi).
  destruct ri as [ir | e].
  2:{ cbn [parse_loop] in H. unfold bind at 1, loop_body in H.
      fold (internal_phase chrome json_loads g) in H.
      rewrite (bind_raise _ _ _ Hi) in H. discriminate. }
  destruct (total_load_reviews chrome self st1) as (rl & st2 & Hl).
  destruct rl as [doc | e].
  2:{ cbn [parse_loop] in H. unfold bind at 1, loop_body in H.
      fold (internal_phase chrome json_loads g) in H.
      rewrite (bind_return _ _ _ Hi) in H. cbv zeta in H.
      rewrite (bind_raise _ _ _ Hl) in H. discriminate. }
  cbn [parse_loop] in H. unfold bind at 1 in H.
  rewrite (loop_body_run chrome json_loads self reviews _ _ Hi Hl) in H.
  destruct (merge_internal reviews ir) as [rs1 |] eqn:E1; [| discriminate].
  destruct (merge_internal_app _ _ E1) as (blob & _ & ->).
  destruct (merge_doc json_loads _ doc) as [rs2 |] eqn:E2; [| discriminate].
  destruct (merge_doc_app _ _ E2) as (batch & _ & ->).
  destruct (doc_truthy doc).
  - destruct (IH _ _ _ _ _ H) as (rest & ->).
    exists (blob ++ batch ++ rest)%list. now rewrite !app_assoc.
  - inversion H; subst. exists (blob ++ batch)%list. now rewrite app_assoc.
Qed.

(** [parse], by the document it receives. *)
Lemma parse_run fuel st :
  parse chrome json_loads self fuel st
  = match document_responses chrome self st with
    | [] => Some (Return None, gate_state chrome self st)
    | document_response :: _ =>
        if negb (String.eqb (mimeType document_response) "text/html")
        then Some (Raise AssertionError, gate_state chrome self st)
        else if (status document_response =? 404)
                && skip_404_response (_options self)
        then Some (Return None, gate_state chrome self st)
        else (_wait_requests_finished chrome ;;;
              reviews <- parse_loop chrome json_loads self fuel [] true ;;
              ret (Some reviews)) (gate_state chrome self st)
    end.
Proof.
  unfold parse, call_. unfold bind at 1. rewrite call_run.
  unfold bind at 1. rewrite call_run. cbn [fst snd world calls].
  unfold document_responses, gate_state, gate_world.
  rewrite <- app_assoc. cbn [app].
  destruct (fst (get_responses chrome 5 _)) as [| d rest]; [reflexivity |].
  destruct (negb (String.eqb (mimeType d) "text/html")); [reflexivity |].
  destruct ((status d =? 404) && skip_404_response (_options self));
    reflexivity.
Qed.

(** The quiescence wait ends, having only evaluated its script; when it
    raises, the exception is [TimeoutError]. *)
Lemma _wait_requests_finished_run st :
  exists r st1 l,
    _wait_requests_finished chrome st = Some (r, st1)
    /\ calls st1 = (calls st ++ l)%list
    /\ forallb inner_call l = true
    /\ (forall e, r = Raise e -> e = TimeoutError).
Proof.
  destruct (total__wait_requests_finished chrome st) as (r & st1 & H).
  assert (R : respects inner_call
                (fun e => match e with TimeoutError => true | _ => false end)
                (_wait_requests_finished chrome)).
  { apply respects_wait_until_finished; [now apply respects_call |].
    reflexivity. }
  destruct (R _ _ _ H) as [(l & E & F) X].
  exists r, st1, l. repeat split; auto.
  intros e ->. specialize (X e eq_refl). now destruct e.
Qed.

Lemma loop_entry_accepted st st1 :
  loop_entry chrome self st = Some st1 ->
  exists document_response rest b,
    document_responses chrome self st = document_response :: rest
    /\ accepted self document_response = true
    /\ _wait_requests_finished chrome (gate_state chrome self st)
       = Some (Return b, st1).
Proof.
  unfold loop_entry.
  destruct (document_responses chrome self st) as [| d rest];
    [discriminate |].
  destruct (accepted self d) eqn:Ea; [| discriminate].
  destruct (_wait_requests_finished chrome _) as [[[b | e] st2] |] eqn:Ew;
    try discriminate.
  intros E; inversion E; subst. now exists d, rest, b.
Qed.

(** [parse] once it has entered its loop. *)
Lemma parse_entered fuel st st1 :
  loop_entry chrome self st = Some st1 ->
  parse chrome json_loads self fuel st
  = (reviews <- parse_loop chrome json_loads self fuel [] true ;;
     ret (Some reviews)) st1.
Proof.
  intros H. destruct (loop_entry_accepted _ H) as (d & rest & b & Ed & Ea & Ew).
  rewrite parse_run, Ed. unfold accepted in Ea.
  apply andb_prop in Ea as [Em E4]. rewrite Em. cbn [negb].
  apply negb_true_iff in E4. rewrite E4.
  now rewrite (bind_return _ _ _ Ew).
Qed.

(** [parse] when it does not enter its loop: it returns [None] or fails
    its assertion in the state [get_responses] left, or the quiescence wait
    of an accepted document raises [TimeoutError]. *)
Lemma parse_not_entered fuel st :
  loop_entry chrome self st = None ->
  (parse chrome json_loads self fuel st
   = match document_responses chrome self st with
     | [] => Some (Return None, gate_state chrome self st)
     | document_response :: _ =>
         if String.eqb (mimeType document_response) "text/html"
         then Some (Return None, gate_state chrome self st)
         else Some (Raise AssertionError, gate_state chrome self st)
     end
   /\ match document_responses chrome self st with
      | [] => True
      | document_response :: _ => accepted self document_response = false
      end)
  \/ (exists document_response rest st1 l,
        document_responses chrome self st = document_response :: rest
        /\ accepted self document_response = true
        /\ _wait_requests_finished chrome (gate_state chrome self st)
           = Some (Raise TimeoutError, st1)
        /\ parse chrome json_loads self fuel st
           = Some (Raise TimeoutError, st1)
        /\ calls st1 = (calls (gate_state chrome self st) ++ l)%list
        /\ forallb inner_call l = true).
Proof.
  unfold loop_entry. rewrite parse_run.
  destruct (document_responses chrome self st) as [| d rest]; [now left |].
  unfold accepted.
  destruct (String.eqb (mimeType d) "text/html") eqn:Em; cbn [negb andb];
    [| now left].
  destruct ((status d =? 404) && skip_404_response (_options self)) eqn:E4;
    cbn [negb]; [now left |].
  destruct (_wait_requests_finished_run (gate_state chrome self st))
    as (r & st1 & l & Hw & C & F & X).
  rewrite Hw. destruct r as [b | e]; [discriminate |].
  intros _. right. rewrite (X e eq_refl) in *.
  exists d, rest, st1, l.
  split; [reflexivity |]. split; [now rewrite Em, E4 |].
  split; [reflexivity |]. split; [| now split].
  now rewrite (bind_raise _ _ _ Hw).
Qed.

(** Without the loop the outcome does not depend on the fuel. *)
Lemma parse_not_entered_fuel fuel fuel' st :
  loop_entry chrome self st = None ->
  parse chrome json_loads self fuel' st = parse chrome json_loads self fuel st.
Proof.
  unfold loop_entry, accepted. rewrite !parse_run.
  destruct (document_responses chrome self st) as [| d rest]; [reflexivity |].
  destruct (String.eqb (mimeType d) "text/html"); cbn [negb andb];
    [| reflexivity].
  destruct ((status d =? 404) && skip_404_response (_options self));
    cbn [negb]; [reflexivity |].
  destruct (_wait_requests_finished chrome (gate_state chrome self st))
    as [[[b | e] st1] |] eqn:Hw; [discriminate | |]; intros _.
  - now rewrite !(bind_raise _ _ _ Hw).
  - unfold bind. now rewrite Hw.
Qed.

End ParseFacts.

Section StepFacts.

Context {W : Type} (chrome : ChromeRemote W).
Variable json_loads : string -> option json.
Variable self : ReviewsParser.

(** The bootstrap marker is absent: subscripting [None] raises. *)
Lemma extract_no_marker html :
  Re.search regex_json html = None ->
  extract json_loads html = Raise TypeError.
Proof. intros H. unfold extract. now rewrite H. Qed.

(** The marker is there but the review window is not. *)
Lemma extract_no_window html m blob :
  Re.search regex_json html = Some m ->
  Re.getitem (Some m) 1 = Return blob ->
  Re.search regex_reviews blob = None ->
  extract json_loads html = Raise TypeError.
Proof. intros H1 H2 H3. unfold extract. now rewrite H1, H2, H3. Qed.

Lemma extract_markers_absent html :
  markers_absent html = true -> extract json_loads html = Raise TypeError.
Proof.
  unfold markers_absent.
  destruct (Re.search regex_json html) as [m |] eqn:E1.
  - destruct (Re.getitem (Some m) 1) as [blob |] eqn:E2; [| discriminate].
    destruct (Re.search regex_reviews blob) eqn:E3; [discriminate |].
    intros _. now apply extract_no_window with m blob.
  - intros _. now apply extract_no_marker.
Qed.

(** Both are there and the normalized window is not valid JSON. *)
Lemma extract_invalid_json html blob window :
  Re.getitem (Re.search regex_json html) 1 = Return blob ->
  Re.getitem (Re.search regex_reviews blob) 1 = Return window ->
  json_loads (normalize ("{" ++ window ++ "}")) = None ->
  extract json_loads html = Return JNull.
Proof.
  intros H1 H2 H3. unfold extract, loads_review. now rewrite H1, H2, H3.
Qed.

Lemma load_reviews_phases st :
  load_reviews chrome self st
  = (scroll_phase chrome self ;;; fetch_phase chrome self) st.
Proof.
  unfold load_reviews, scroll_phase, fetch_phase. cbv zeta.
  symmetry. rewrite bind_assoc. apply bind_ext. intros _ st1.
  rewrite bind_assoc. apply bind_ext. intros nodes st2.
  rewrite bind_assoc. apply bind_ext. intros sidebar st3.
  reflexivity.
Qed.

Lemma poll_sidebar_absent n : forall st,
  sidebar_absent chrome n (world st) = true ->
  exists st1 l,
    poll nonempty
      (dom_tree <- call CGetDocument (get_document chrome) ;;
       ret (search valid_link dom_tree)) n st
    = Some (Return ([], false), st1)
    /\ calls st1 = (calls st ++ l)%list
    /\ forallb (fun c => match c with CGetDocument => true | _ => false end) l
       = true.
Proof.
  induction n as [| n IH]; intros st H; cbn [sidebar_absent] in H;
    destruct (get_document chrome (world st)) as [dom_tree w'] eqn:Ed;
    apply andb_prop in H as [Hs Hn]; apply negb_true_iff in Hs;
    cbn [poll]; unfold bind at 1; unfold bind at 1; rewrite call_run, Ed;
    cbn [fst snd]; unfold ret at 1;
    destruct (search valid_link dom_tree) as [| x xs]; try discriminate;
    cbn [nonempty].
  - eexists _, [CGetDocument]. repeat split.
  - destruct (IH {| world := w'; calls := (calls st ++ [CGetDocument])%list |}
                Hn) as (st1 & l & E & C & F).
    exists st1, (CGetDocument :: l). split; [exact E |].
    split; [| cbn; exact F].
    rewrite C. cbn [calls]. now rewrite <- app_assoc.
Qed.

(** The sidebar search that finds nothing returns the empty list. *)
Lemma _get_sidebar_absent st :
  sidebar_absent chrome (polls_within chrome 5 (world st)) (world st) = true ->
  exists st1 l,
    _get_sidebar chrome st = Some (Return [], st1)
    /\ calls st1 = (calls st ++ l)%list
    /\ forallb (fun c => match c with CGetDocument => true | _ => false end) l
       = true.
Proof.
  intros H. destruct (poll_sidebar_absent _ _ H) as (st1 & l & E & C & F).
  exists st1, l. split; [| now split].
  unfold _get_sidebar, wait_until_finished. now rewrite (bind_return _ _ _ E).
Qed.

(** Then [self._get_sidebar()[0]] raises, before any scroll. *)
Lemma load_reviews_sidebar_absent st :
  sidebar_absent chrome
    (polls_within chrome 5 (world (after_delay chrome self st)))
    (world (after_delay chrome self st)) = true ->
  exists st1 l,
    load_reviews chrome self st = Some (Raise IndexError, st1)
    /\ calls st1 = (calls st ++ l)%list
    /\ count is_perform_scroll l = O
    /\ count is_wait_responses l = O.
Proof.
  intros H. destruct (_get_sidebar_absent _ H) as (st1 & l & E & C & F).
  assert (Hc : count is_perform_scroll l = O /\ count is_wait_responses l = O).
  { split;
      apply (count_none _
               (fun c => match c with CGetDocument => true | _ => false end));
      auto; now intros []. }
  destruct Hc as [Hc1 Hc2].
  unfold after_delay in *. cbv zeta in *. unfold load_reviews. cbv zeta.
  destruct (delay_between_clicks (_options self) =? 0).
  - exists st1, l. split; [| now repeat split].
    unfold bind at 1, ret at 1. now rewrite (bind_return _ _ _ E).
  - exists st1, (CWait (delay_between_clicks (_options self)) :: l).
    split; [| split; [| split]].
    + unfold bind at 1, call_. rewrite call_run. cbn [fst snd].
      now rewrite (bind_return _ _ _ E).
    + rewrite C. cbn [calls]. now rewrite <- app_assoc.
    + unfold count in *. cbn. exact Hc1.
    + unfold count in *. cbn. exact Hc2.
Qed.


Lemma poll_never_settled n : forall st,
  never_settled chrome n (world st) = true ->
  exists st1,
    poll (fun b : bool => b)
      (call (CExecuteScript "window.openHTTPs == 0")
            (execute_script chrome "window.openHTTPs == 0")) n st
    = Some (Return (false, false), st1)
    /\ calls st1
       = (calls st
          ++ repeat (CExecuteScript "window.openHTTPs == 0") (S n))%list.
Proof.
  induction n as [| n IH]; intros st H; cbn [never_settled] in H;
    destruct (execute_script chrome _ (world st)) as [b w'] eqn:Ee;
    apply andb_prop in H as [Hs Hn]; apply negb_true_iff in Hs; subst b;
    cbn [poll]; unfold bind at 1; rewrite call_run, Ee; cbn [fst snd].
  - now eexists.
  - destruct (IH {| world := w';
                    calls := (calls st
                              ++ [CExecuteScript "window.openHTTPs == 0"])
                             %list |} Hn) as (st1 & Hp & C).
    exists st1. split; [exact Hp |].
    rewrite C. cbn [calls repeat]. now rewrite <- app_assoc.
Qed.

End StepFacts.

(** ** The properties of [parse] *)

Section Properties.

Context {W : Type} (chrome : ChromeRemote W).
Variable json_loads : string -> option json.
Variable self : ReviewsParser.

Lemma parse_loop_never_times_out fuel reviews g st st' :
  parse_loop chrome json_loads self fuel reviews g st
  <> Some (Raise TimeoutError, st').
Proof.
  intros H.
  destruct (parse_loop_calls _ _ _ _ _ _ _ H) as (_ & _ & _ & _ & X & _).
  now specialize (X _ eq_refl).
Qed.

(** C2, as amended: when [window.openHTTPs == 0] is false at every poll
    of the wait of 120 time units, [_wait_requests_finished] raises
    [TimeoutError] and [parse] ends with it without entering its loop,
    having only evaluated the script since [get_responses]. *)
Theorem quiescence_timeout_raises fuel st document_response rest :
  document_responses chrome self st = document_response :: rest ->
  accepted self document_response = true ->
  never_settled chrome
    (polls_within chrome 120 (world (gate_state chrome self st)))
    (world (gate_state chrome self st)) = true ->
  exists st1,
    _wait_requests_finished chrome (gate_state chrome self st)
    = Some (Raise TimeoutError, st1)
    /\ parse chrome json_loads self fuel st = Some (Raise TimeoutError, st1)
    /\ loop_entry chrome self st = None
    /\ calls st1
       = (calls (gate_state chrome self st)
          ++ repeat (CExecuteScript "window.openHTTPs == 0")
               (S (polls_within chrome 120
                     (world (gate_state chrome self st)))))%list.
Proof.
  intros Hd Ha Hn.
  destruct (poll_never_settled chrome _ _ Hn) as (st1 & Hp & C).
  assert (Hw : _wait_requests_finished chrome (gate_state chrome self st)
               = Some (Raise TimeoutError, st1)).
  { unfold _wait_requests_finished, wait_until_finished.
    now rewrite (bind_return _ _ _ Hp). }
  exists st1. split; [exact Hw |].
  split; [| split; [| exact C]].
  - rewrite parse_run, Hd. unfold accepted in Ha.
    apply andb_prop in Ha as [Em E4]. rewrite Em. cbn [negb].
    apply negb_true_iff in E4. rewrite E4.
    now rewrite (bind_raise _ _ _ Hw).
  - unfold loop_entry. now rewrite Hd, Ha, Hw.
Qed.

(** C4, as amended: once [load_reviews] has returned no data, no batch is
    merged and no further turn is run, whatever the fuel: the turn ends at
    once.  In every turn but the first the session is stopped and the list
    returned as it stood.  In the first turn the bootstrap value of this
    turn is merged first: a falsy value leaves the list as it stood, an
    object appends the values of its keys in their order, and the session
    is stopped and the list returned, as whenever the merge returns; an
    exception of the merge (a [TypeError] for a truthy value that is
    neither an object nor an array) ends the turn in the state the step
    left, the session not stopped. *)
Theorem no_data_ends_the_parse fuel reviews g st ir st1 doc st2 :
  internal_phase chrome json_loads g st = Some (Return ir, st1) ->
  load_reviews chrome self st1 = Some (Return doc, st2) ->
  doc_truthy doc = false ->
  let result := parse_loop chrome json_loads self (S fuel) reviews g st in
  result = last_turn chrome reviews ir st2
  /\ (forall rs, merge_doc json_loads rs doc = Return rs)
  /\ (forall fuel',
      parse_loop chrome json_loads self (S fuel') reviews g st = result)
  /\ (g = false -> result = Some (Return reviews, stopped chrome st2))
  /\ (Py.truthy ir = false ->
      result = Some (Return reviews, stopped chrome st2))
  /\ (forall kvs, ir = JDict kvs -> NoDup (map fst kvs) ->
      result = Some (Return (reviews ++ map snd kvs)%list,
                     stopped chrome st2))
  /\ (forall rs, merge_internal reviews ir = Return rs ->
      result = Some (Return rs, stopped chrome st2)
      /\ exists blob, rs = (reviews ++ blob)%list)
  /\ (forall e, merge_internal reviews ir = Raise e ->
      result = Some (Raise e, st2))
  /\ (Py.truthy ir = true ->
      (forall kvs, ir <> JDict kvs) -> (forall l, ir <> JList l) ->
      result = Some (Raise TypeError, st2)).
Proof.
  intros Hi Hl Hd result.
  assert (Hp : forall f,
             parse_loop chrome json_loads self (S f) reviews g st
             = last_turn chrome reviews ir st2).
  { intros f. now apply parse_loop_last_turn with st1 doc. }
  assert (Hm : forall rs, merge_doc json_loads rs doc = Return rs).
  { intros rs. unfold merge_doc. destruct doc as [s |]; [| reflexivity].
    cbn in Hd. now rewrite Hd. }
  subst result. split; [apply Hp |]. split; [exact Hm |].
  split; [intros; now rewrite !Hp |].
  rewrite Hp. unfold last_turn.
  split. { intros ->. inversion Hi; subst. reflexivity. }
  split. { intros Ht. unfold merge_internal. now rewrite Ht. }
  split.
  { intros kvs -> Hn. now rewrite (@merge_internal_object reviews kvs Hn). }
  split.
  { intros rs Hr. rewrite Hr. split; [reflexivity |].
    destruct (merge_internal_app _ _ Hr) as (blob & _ & ->). now exists blob. }
  split; [intros e He; now rewrite He |].
  intros Ht Ho Ha. now rewrite (merge_internal_scalar reviews Ht Ho Ha).
Qed.

(** C5, as amended: [parse] returns [None] exactly when there is no
    document response, or the document has content type [text/html],
    status 404 and [skip_404_response] is set; it then returns in the state
    [get_responses] left.  Whenever it returns a list it has entered its
    loop. *)
Theorem parse_none_exactly_on_early_return fuel st :
  ((exists st', parse chrome json_loads self fuel st
                = Some (Return None, st'))
   <-> early_return chrome self st = true)
  /\ (forall st', parse chrome json_loads self fuel st
                  = Some (Return None, st') ->
                  st' = gate_state chrome self st)
  /\ (forall reviews st', parse chrome json_loads self fuel st
                          = Some (Return (Some reviews), st') ->
                          exists st0, loop_entry chrome self st = Some st0).
Proof.
  destruct (loop_entry chrome self st) as [st0 |] eqn:He.
  - rewrite (parse_entered chrome json_loads self fuel _ He).
    assert (Hn : forall st', (reviews <- parse_loop chrome json_loads self
                                fuel [] true ;; ret (Some reviews)) st0
                             <> Some (Return None, st')).
    { intros st' H. bind_cases H. discriminate. }
    destruct (loop_entry_accepted _ _ _ He) as (d & rest & b & Ed & Ea & _).
    assert (Hf : early_return chrome self st = false).
    { unfold early_return. rewrite Ed. unfold accepted in Ea.
      apply andb_prop in Ea as [-> E4]. apply negb_true_iff in E4.
      now rewrite E4. }
    repeat split.
    + intros (st' & H). now apply Hn in H.
    + rewrite Hf. discriminate.
    + intros st' H. now apply Hn in H.
    + intros. now exists st0.
  - destruct (parse_not_entered chrome json_loads self fuel _ He)
      as [[Hp Ha] | (d & rest & st1 & l & Ed & Ea & _ & Hp & _)].
    + rewrite Hp. unfold early_return.
      destruct (document_responses chrome self st) as [| d rest].
      * repeat split; try discriminate.
        -- now eexists.
        -- intros st' E. now inversion E.
      * unfold accepted in Ha.
        destruct (String.eqb (mimeType d) "text/html"); cbn [andb] in *.
        -- apply negb_false_iff in Ha. rewrite Ha.
           repeat split; try discriminate.
           ++ now eexists.
           ++ intros st' E. now inversion E.
        -- repeat split; try discriminate.
           intros (st' & E). discriminate.
    + rewrite Hp. unfold early_return. rewrite Ed. unfold accepted in Ea.
      apply andb_prop in Ea as [-> E4]. apply negb_true_iff in E4.
      rewrite E4. repeat split; try discriminate.
      intros (st' & E). discriminate.
Qed.

Lemma loop_entry_calls st st0 :
  loop_entry chrome self st = Some st0 ->
  exists l, calls st0 = (calls (gate_state chrome self st) ++ l)%list
            /\ forallb inner_call l = true.
Proof.
  intros He.
  destruct (loop_entry_accepted _ _ _ He) as (d & rest & b & _ & _ & Hw).
  destruct (_wait_requests_finished_run chrome (gate_state chrome self st))
    as (r & st1 & l & Hw' & C & F & _).
  rewrite Hw in Hw'. inversion Hw'; subst. now exists l.
Qed.

Lemma inner_call_counts l :
  forallb inner_call l = true ->
  count is_get_html l = O /\ count is_stop l = O.
Proof.
  intros F. split; apply (count_none _ inner_call); auto;
    intros c Hc; unfold inner_call in Hc; apply andb_prop in Hc as [H1 H2];
    now apply negb_true_iff.
Qed.

(** C6: in a run of [parse] that enters the loop, [get_html] (the bootstrap
    extraction) is the first call of the loop and is made exactly once;
    and the list returned starts with the records of the bootstrap blob,
    followed by those of the first pagination cycle. *)
Theorem bootstrap_once_and_first fuel st st0 r st' :
  loop_entry chrome self st = Some st0 ->
  parse chrome json_loads self fuel st = Some (r, st') ->
  (exists l, calls st' = (calls st0 ++ CGetHtml :: l)%list
             /\ count is_get_html l = O)
  /\ count is_get_html (calls st') = S (count is_get_html (calls st))
  /\ (forall reviews, r = Return (Some reviews) ->
      exists ir st1 doc st2 blob batch rest,
        get_internal_reviews chrome json_loads st0 = Some (Return ir, st1)
        /\ load_reviews chrome self st1 = Some (Return doc, st2)
        /\ merge_internal [] ir = Return blob
        /\ merge_doc json_loads [] doc = Return batch
        /\ reviews = (blob ++ batch ++ rest)%list).
Proof.
  intros He H. rewrite (parse_entered chrome json_loads self fuel _ He) in H.
  destruct (loop_entry_calls _ He) as (lw & Cw & Fw).
  destruct (inner_call_counts _ Fw) as [Gw _].
  assert (Hloop : exists rl,
             parse_loop chrome json_loads self fuel [] true st0 = Some (rl, st')
             /\ (forall reviews, r = Return (Some reviews) ->
                                 rl = Return reviews)).
  { bind_cases H.
    - inversion H2; subst. exists (Return a). split; [exact H1 |].
      intros reviews E. now inversion E.
    - exists (Raise e). split; [exact H1 | discriminate]. }
  destruct Hloop as (rl & Hl & Hr).
  destruct (parse_loop_calls _ _ _ _ _ _ _ Hl) as (l & C & G & _).
  cbn [app] in C.
  split; [now exists l |]. split.
  { rewrite C, Cw. cbn [gate_state calls].
    rewrite !count_app, Gw. unfold count at 2 3. cbn. unfold count in G.
    rewrite G. lia. }
  intros reviews Er. rewrite (Hr _ Er) in Hl. clear Hr Er C G.
  destruct fuel as [| fuel]; [discriminate |].
  destruct (total_get_internal_reviews chrome json_loads st0)
    as (ri & st1 & Hi).
  destruct ri as [ir | e].
  2:{ cbn [parse_loop] in Hl. unfold bind at 1, loop_body in Hl.
      rewrite (bind_raise _ _ _ Hi) in Hl. discriminate. }
  destruct (total_load_reviews chrome self st1) as (rd & st2 & Hd).
  destruct rd as [doc | e].
  2:{ cbn [parse_loop] in Hl. unfold bind at 1, loop_body in Hl.
      rewrite (bind_return _ _ _ Hi) in Hl. cbv zeta in Hl.
      rewrite (bind_raise _ _ _ Hd) in Hl. discriminate. }
  cbn [parse_loop] in Hl. unfold bind at 1 in Hl.
  erewrite loop_body_run in Hl; [| exact Hi | exact Hd].
  destruct (merge_internal [] ir) as [blob |] eqn:E1; [| discriminate].
  destruct (merge_doc json_loads blob doc) as [rs2 |] eqn:E2; [| discriminate].
  destruct (merge_doc_app _ _ _ E2) as (batch & Eb & ->).
  exists ir, st1, doc, st2, blob, batch.
  destruct (doc_truthy doc).
  - destruct (parse_loop_extends _ _ _ _ _ _ _ Hl) as (rest & ->).
    exists rest. rewrite <- app_assoc. now repeat split.
  - inversion Hl; subst. exists []. rewrite app_nil_r. now repeat split.
Qed.

(** C7: given a first document response, [parse] ends in an
    [AssertionError] if and only if the content type of that response is
    not [text/html]. *)
Theorem assertion_iff_unexpected_content_type fuel st document_response rest :
  document_responses chrome self st = document_response :: rest ->
  (exists st', parse chrome json_loads self fuel st
               = Some (Raise AssertionError, st'))
  <-> mimeType document_response <> "text/html".
Proof.
  intros Hd. rewrite parse_run, Hd.
  destruct (String.eqb (mimeType document_response) "text/html") eqn:Em;
    cbn [negb].
  - apply String.eqb_eq in Em. split; [| intros C; now elim C].
    intros (st' & H). exfalso.
    destruct ((status document_response =? 404)
              && skip_404_response (_options self)); [discriminate |].
    bind_cases H.
    + bind_cases H2; [discriminate |].
      destruct (parse_loop_calls _ _ _ _ _ _ _ H0) as (_ & _ & _ & _ & X & _).
      now specialize (X _ eq_refl).
    + destruct (_wait_requests_finished_run chrome
                  (gate_state chrome self st))
        as (r & st1 & l & Hw & _ & _ & X).
      rewrite Hw in H1. inversion H1; subst.
      specialize (X _ eq_refl). discriminate.
  - apply String.eqb_neq in Em. split; [intros _; exact Em |].
    intros _. now eexists.
Qed.

(** C10: in every run of [parse] that ends, [stop] is called once when a
    list is returned, as the last call, and not at all otherwise; a run
    that returns [None] ends in the state [get_responses] left, having
    called [navigate] and [get_responses] only. *)
Theorem stop_exactly_when_a_list_is_returned fuel st r st' :
  parse chrome json_loads self fuel st = Some (r, st') ->
  exists l,
    calls st' = (calls st ++ l)%list
    /\ count is_stop l = (if is_list r then 1 else 0)%nat
    /\ (is_list r = true -> exists st2, st' = stopped chrome st2)
    /\ (r = Return None ->
        st' = gate_state chrome self st
        /\ l = [CNavigate (_url self) "https://google.com" 120;
                CGetResponses 5]).
Proof.
  intros H.
  destruct (loop_entry chrome self st) as [st0 |] eqn:He.
  - rewrite (parse_entered chrome json_loads self fuel _ He) in H.
    destruct (loop_entry_calls _ He) as (lw & Cw & Fw).
    destruct (inner_call_counts _ Fw) as [_ Sw].
    cbn [gate_state calls] in Cw.
    bind_cases H.
    + inversion H2; subst.
      destruct (parse_loop_calls _ _ _ _ _ _ _ H1) as (l & C & _ & S & _ & R).
      exists ([CNavigate (_url self) "https://google.com" 120;
               CGetResponses 5] ++ lw ++ [CGetHtml] ++ l)%list.
      rewrite C, Cw, !count_app, Sw, S, <- !app_assoc. cbn.
      repeat split; auto; try discriminate.
      intros _. exact (R _ eq_refl).
    + destruct (parse_loop_calls _ _ _ _ _ _ _ H1) as (l & C & _ & S & _).
      exists ([CNavigate (_url self) "https://google.com" 120;
               CGetResponses 5] ++ lw ++ [CGetHtml] ++ l)%list.
      rewrite C, Cw, !count_app, Sw, S, <- !app_assoc. cbn.
      repeat split; auto; discriminate.
  - destruct (parse_not_entered chrome json_loads self fuel _ He)
      as [[Hp _] | (d & rest & st1 & l & _ & _ & _ & Hp & C & F)].
    + rewrite Hp in H.
      exists [CNavigate (_url self) "https://google.com" 120;
              CGetResponses 5].
      destruct (document_responses chrome self st) as [| d rest].
      * inversion H; subst. cbn. repeat split; auto; discriminate.
      * destruct (String.eqb (mimeType d) "text/html"); inversion H; subst;
          cbn; repeat split; auto; discriminate.
    + rewrite Hp in H. inversion H; subst.
      destruct (inner_call_counts _ F) as [_ Sw].
      cbn [gate_state calls] in C.
      exists ([CNavigate (_url self) "https://google.com" 120;
               CGetResponses 5] ++ l)%list.
      rewrite C, !count_app, Sw, <- !app_assoc. cbn.
      repeat split; auto; discriminate.
Qed.

(** A turn whose pagination step yields no data is not followed by
    another. *)
Lemma no_data_not_again reviews g st rs g' st1 :
  no_data chrome json_loads self g st = true ->
  loop_body chrome json_loads self reviews g st
  <> Some (Return (Again rs g'), st1).
Proof.
  unfold no_data. intros Hn H.
  destruct (total_internal_phase chrome json_loads g st) as (ri & sti & Hi).
  rewrite Hi in Hn. destruct ri as [ir | e].
  2:{ unfold loop_body in H. fold (internal_phase chrome json_loads g) in H.
      rewrite (bind_raise _ _ _ Hi) in H. discriminate. }
  destruct (total_load_reviews chrome self sti) as (rd & st2 & Hd).
  rewrite Hd in Hn. destruct rd as [doc | e].
  2:{ unfold loop_body in H. fold (internal_phase chrome json_loads g) in H.
      rewrite (bind_return _ _ _ Hi) in H. cbv zeta in H.
      rewrite (bind_raise _ _ _ Hd) in H. discriminate. }
  apply negb_true_iff in Hn.
  erewrite loop_body_run in H; [| exact Hi | exact Hd].
  rewrite Hn in H.
  destruct (merge_internal reviews ir); [| discriminate].
  destruct (merge_doc json_loads _ doc); discriminate.
Qed.

Lemma parse_loop_terminates n : forall fuel reviews g st,
  dry_at chrome json_loads self n reviews g st = true ->
  (n < fuel)%nat ->
  exists r st', parse_loop chrome json_loads self fuel reviews g st
                = Some (r, st').
Proof.
  induction n as [| n IH]; intros fuel reviews g st Hdry Hf;
    (destruct fuel as [| fuel]; [lia |]);
    destruct (total_loop_body chrome json_loads self reviews g st)
      as (rt & st1 & Hb);
    cbn [parse_loop];
    (destruct rt as [[rs g' | rs] | e];
     [| rewrite (bind_return _ _ _ Hb); now eexists _, _
      | rewrite (bind_raise _ _ _ Hb); now eexists _, _]).
  - exfalso. unfold dry_at in Hdry. cbn [turn_state] in Hdry.
    exact (no_data_not_again _ _ _ Hdry Hb).
  - rewrite (bind_return _ _ _ Hb). apply IH; [| lia].
    unfold dry_at in *. cbn [turn_state] in Hdry. now rewrite Hb in Hdry.
Qed.

(** More fuel does not change the outcome of the loop. *)
Lemma parse_loop_fuel fuel : forall fuel' reviews g st x,
  parse_loop chrome json_loads self fuel reviews g st = Some x ->
  (fuel <= fuel')%nat ->
  parse_loop chrome json_loads self fuel' reviews g st = Some x.
Proof.
  induction fuel as [| fuel IH]; intros fuel' reviews g st x H Hf;
    [discriminate |].
  destruct fuel' as [| fuel']; [lia |].
  cbn [parse_loop] in *. unfold bind in *.
  destruct (loop_body chrome json_loads self reviews g st)
    as [[[[rs g' | rs] | e] st1] |]; auto.
  apply IH; [exact H | lia].
Qed.

(** C8: when some turn of the loop, if the loop gets to it, yields no
    data, [parse] terminates: with enough fuel it returns or raises, and
    more fuel gives the same outcome. *)
Theorem parse_terminates_on_a_dry_step n fuel st :
  (forall st0, loop_entry chrome self st = Some st0 ->
               dry_at chrome json_loads self n [] true st0 = true) ->
  (n < fuel)%nat ->
  exists r st',
    parse chrome json_loads self fuel st = Some (r, st')
    /\ forall fuel', (fuel <= fuel')%nat ->
                     parse chrome json_loads self fuel' st = Some (r, st').
Proof.
  intros Hdry Hf.
  destruct (loop_entry chrome self st) as [st0 |] eqn:He.
  - destruct (@parse_loop_terminates n fuel [] true st0 (Hdry _ eq_refl) Hf)
      as (rl & st' & Hl).
    assert (Hall : forall fuel', (fuel <= fuel')%nat ->
              parse_loop chrome json_loads self fuel' [] true st0
              = Some (rl, st')).
    { intros fuel' Hle. eapply parse_loop_fuel; eassumption. }
    destruct rl as [reviews | e].
    + exists (Return (Some reviews)), st'. split.
      * rewrite (parse_entered chrome json_loads self fuel _ He).
        now rewrite (bind_return _ _ _ Hl).
      * intros fuel' Hle.
        rewrite (parse_entered chrome json_loads self fuel' _ He).
        now rewrite (bind_return _ _ _ (Hall _ Hle)).
    + exists (Raise e), st'. split.
      * rewrite (parse_entered chrome json_loads self fuel _ He).
        now rewrite (bind_raise _ _ _ Hl).
      * intros fuel' Hle.
        rewrite (parse_entered chrome json_loads self fuel' _ He).
        now rewrite (bind_raise _ _ _ (Hall _ Hle)).
  - assert (Hq : forall fuel',
              parse chrome json_loads self fuel' st
              = parse chrome json_loads self fuel st).
    { intros fuel'. now apply parse_not_entered_fuel. }
    destruct (parse_not_entered chrome json_loads self fuel _ He)
      as [[Hp _] | (d & rest & st1 & l & _ & _ & _ & Hp & _)].
    + rewrite Hp.
      destruct (document_responses chrome self st) as [| d rest].
      * eexists _, _. split; [reflexivity |]. intros. now rewrite Hq, Hp.
      * destruct (String.eqb (mimeType d) "text/html");
          (eexists _, _; split; [reflexivity |]; intros; now rewrite Hq, Hp).
    + exists (Raise TimeoutError), st1. split; [exact Hp |].
      intros. now rewrite Hq.
Qed.


(** C1: the case the code misses.  When the markup [get_html] returns
    does not hold the bootstrap marker, or the blob does not hold the
    review window, [re.search] gives [None] and subscripting it raises:
    [get_internal_reviews] and [parse] end in a [TypeError], whatever the
    pagination cycles would have brought. *)
Theorem missing_marker_raises_type_error fuel st st0 :
  loop_entry chrome self st = Some st0 ->
  markers_absent (fst (get_html chrome (world st0))) = true ->
  get_internal_reviews chrome json_loads st0
  = Some (Raise TypeError, after_get_html chrome st0)
  /\ parse chrome json_loads self (S fuel) st
     = Some (Raise TypeError, after_get_html chrome st0).
Proof.
  intros He Hm.
  assert (Hg : get_internal_reviews chrome json_loads st0
               = Some (Raise TypeError, after_get_html chrome st0)).
  { rewrite get_internal_reviews_run. unfold after_get_html.
    now rewrite (extract_markers_absent json_loads _ Hm). }
  split; [exact Hg |].
  rewrite (parse_entered chrome json_loads self (S fuel) _ He).
  cbn [parse_loop]. unfold bind at 1 2, loop_body.
  now rewrite (bind_raise _ _ _ Hg).
Qed.

(** The window that is not valid JSON, on the other hand, is handled:
    the extraction returns [None] and the first turn goes on as a turn
    without bootstrap records. *)
Lemma falsy_bootstrap_is_skipped reviews st ir :
  extract json_loads (fst (get_html chrome (world st))) = Return ir ->
  Py.truthy ir = false ->
  loop_body chrome json_loads self reviews true st
  = loop_body chrome json_loads self reviews false (after_get_html chrome st).
Proof.
  intros Hx Ht.
  assert (Hg : get_internal_reviews chrome json_loads st
               = Some (Return ir, after_get_html chrome st)).
  { rewrite get_internal_reviews_run. now rewrite Hx. }
  unfold loop_body. rewrite (bind_return _ _ _ Hg). cbv zeta.
  rewrite Ht. reflexivity.
Qed.

(** C3: the case the code misses.  When the DOM search finds no sidebar
    at any poll of its wait, [_get_sidebar] returns the empty list and
    [self._get_sidebar()[0]] raises: the turn and [parse] end in an
    [IndexError], no scroll is performed and no response awaited. *)
Theorem absent_sidebar_raises_index_error fuel st st0 ir st1 :
  loop_entry chrome self st = Some st0 ->
  get_internal_reviews chrome json_loads st0 = Some (Return ir, st1) ->
  sidebar_absent chrome
    (polls_within chrome 5 (world (after_delay chrome self st1)))
    (world (after_delay chrome self st1)) = true ->
  exists st2 l,
    load_reviews chrome self st1 = Some (Raise IndexError, st2)
    /\ parse chrome json_loads self (S fuel) st
       = Some (Raise IndexError, st2)
    /\ calls st2 = (calls st1 ++ l)%list
    /\ count is_perform_scroll l = O
    /\ count is_wait_responses l = O.
Proof.
  intros He Hi Ha.
  destruct (load_reviews_sidebar_absent chrome self _ Ha)
    as (st2 & l & Hl & C & G1 & G2).
  exists st2, l. split; [exact Hl |]. split; [| now repeat split].
  rewrite (parse_entered chrome json_loads self (S fuel) _ He).
  cbn [parse_loop]. unfold bind at 1 2, loop_body.
  rewrite (bind_return _ _ _ Hi). cbv zeta.
  now rewrite (bind_raise _ _ _ Hl).
Qed.

End Properties.

(** ** Scripted sessions terminate *)

Section ScriptedFacts.

Variable json_loads : string -> option json.
Variable self : ReviewsParser.

Lemma same_pages_refl w : Scripted.same_pages w w.
Proof. reflexivity. Qed.

Lemma same_pages_trans w1 w2 w3 :
  Scripted.same_pages w1 w2 -> Scripted.same_pages w2 w3 -> Scripted.same_pages w1 w3.
Proof. unfold Scripted.same_pages. congruence. Qed.

Lemma scripted_get_internal_reviews :
  keeps Scripted.same_pages (get_internal_reviews Scripted.chrome json_loads).
Proof.
  intros st r st' H. rewrite get_internal_reviews_run in H.
  inversion H; subst. reflexivity.
Qed.

Lemma scripted_internal_phase g :
  keeps Scripted.same_pages (internal_phase Scripted.chrome json_loads g).
Proof.
  destruct g; [apply scripted_get_internal_reviews |].
  apply keeps_ret, same_pages_refl.
Qed.

Lemma scripted_scroll_phase :
  keeps Scripted.same_pages (scroll_phase Scripted.chrome self).
Proof.
  unfold scroll_phase. cbv zeta.
  apply keeps_bind; [exact same_pages_trans | |].
  { destruct (_ =? 0); [apply keeps_ret, same_pages_refl |].
    now apply keeps_call. }
  intros _. apply keeps_bind; [exact same_pages_trans | |].
  { apply keeps_wait_until_finished;
      [exact same_pages_refl | exact same_pages_trans |].
    apply keeps_bind; [exact same_pages_trans | now apply keeps_call |].
    intros; apply keeps_ret, same_pages_refl. }
  intros nodes. apply keeps_bind; [exact same_pages_trans | |].
  { apply keeps_lift, same_pages_refl. }
  intros sidebar. now apply keeps_call.
Qed.

Lemma scripted__wait_requests_finished :
  keeps Scripted.same_pages (_wait_requests_finished Scripted.chrome).
Proof.
  apply keeps_wait_until_finished;
    [exact same_pages_refl | exact same_pages_trans |].
  apply keeps_call. intros w. cbn.
  destruct (Scripted.quiet_after w) as [[| k] |]; reflexivity.
Qed.

(** A step that brings data consumes a page of the script. *)
Lemma scripted_load_reviews st doc st' :
  load_reviews Scripted.chrome self st = Some (Return doc, st') ->
  doc_truthy doc = true ->
  (length (Scripted.pages (world st'))
   < length (Scripted.pages (world st)))%nat.
Proof.
  rewrite load_reviews_phases. intros H Ht.
  destruct (bind_inv _ _ _ H) as [([] & st1 & H1 & H2) | (e & _ & E)];
    [| discriminate].
  rewrite <- (scripted_scroll_phase _ H1).
  unfold fetch_phase in H2. unfold bind at 1 in H2. rewrite call_run in H2.
  cbn [fst snd wait_responses Scripted.chrome] in H2.
  destruct (Scripted.pages (world st1)) as [| [resp b] ps] eqn:Ep.
  - cbn in H2. inversion H2; subst. discriminate.
  - cbn [fst snd] in H2. destruct resp as [resp |].
    + destruct (0 <=? status resp).
      * rewrite call_run in H2. inversion H2; subst. cbn. lia.
      * inversion H2; subst. discriminate.
    + inversion H2; subst. discriminate.
Qed.

Lemma scripted_no_data g st :
  Scripted.pages (world st) = [] ->
  no_data Scripted.chrome json_loads self g st = true.
Proof.
  intros Hp. unfold no_data.
  destruct (internal_phase Scripted.chrome json_loads g st)
    as [[[ir | e] st1] |] eqn:Hi; try reflexivity.
  pose proof (scripted_internal_phase _ _ Hi) as Hs. unfold Scripted.same_pages in Hs.
  destruct (load_reviews Scripted.chrome self st1)
    as [[[doc | e] st2] |] eqn:Hl; try reflexivity.
  destruct (doc_truthy doc) eqn:Ht; [| reflexivity].
  pose proof (scripted_load_reviews _ Hl Ht) as Hlt.
  rewrite Hs, Hp in Hlt. cbn in Hlt. lia.
Qed.

(** With [n] pages left in the script, turn [n + 1] yields no data. *)
Lemma scripted_dry n : forall reviews g st,
  (length (Scripted.pages (world st)) <= n)%nat ->
  dry_at Scripted.chrome json_loads self n reviews g st = true.
Proof.
  induction n as [| n IH]; intros reviews g st Hn; unfold dry_at;
    cbn [turn_state].
  - apply scripted_no_data.
    destruct (Scripted.pages (world st)); [reflexivity | cbn in Hn; lia].
  - destruct (loop_body Scripted.chrome json_loads self reviews g st)
      as [[[[rs g' | rs] | e] st'] |] eqn:Hb; try reflexivity.
    apply (IH rs g' st').
    destruct (total_internal_phase Scripted.chrome json_loads g st)
      as (ri & st1 & Hi).
    destruct ri as [ir | e].
    2:{ unfold loop_body in Hb.
        fold (internal_phase Scripted.chrome json_loads g) in Hb.
        rewrite (bind_raise _ _ _ Hi) in Hb. discriminate. }
    destruct (total_load_reviews Scripted.chrome self st1)
      as (rd & st2 & Hl).
    destruct rd as [doc | e].
    2:{ unfold loop_body in Hb.
        fold (internal_phase Scripted.chrome json_loads g) in Hb.
        rewrite (bind_return _ _ _ Hi) in Hb. cbv zeta in Hb.
        rewrite (bind_raise _ _ _ Hl) in Hb. discriminate. }
    erewrite loop_body_run in Hb; [| exact Hi | exact Hl].
    destruct (merge_internal reviews ir); [| discriminate].
    destruct (merge_doc json_loads _ doc); [| discriminate].
    destruct (doc_truthy doc) eqn:Ht; [| discriminate].
    inversion Hb; subst.
    pose proof (scripted_load_reviews _ Hl Ht) as Hlt.
    pose proof (scripted_internal_phase _ _ Hi) as Hs.
    unfold Scripted.same_pages in Hs. rewrite Hs in Hlt. lia.
Qed.

(** On every scripted session, [parse] terminates with more fuel than the
    script has pages. *)
Lemma scripted_parse_terminates w fuel :
  (length (Scripted.pages w) < fuel)%nat ->
  exists r st',
    parse Scripted.chrome json_loads self fuel (Scripted.start w)
    = Some (r, st').
Proof.
  intros Hf.
  destruct (loop_entry Scripted.chrome self (Scripted.start w))
    as [st0 |] eqn:He.
  - destruct (loop_entry_accepted _ _ _ He) as (d & rest & b & _ & _ & Hw).
    pose proof (scripted__wait_requests_finished _ Hw) as Hs.
    unfold Scripted.same_pages in Hs. cbn in Hs.
    destruct (@parse_loop_terminates _ Scripted.chrome json_loads self
                (length (Scripted.pages w)) fuel [] true st0)
      as (rl & st' & Hl); [| exact Hf |].
    { apply scripted_dry. rewrite Hs. lia. }
    rewrite (parse_entered Scripted.chrome json_loads self fuel _ He).
    destruct rl as [reviews | e].
    + rewrite (bind_return _ _ _ Hl). now eexists _, _.
    + rewrite (bind_raise _ _ _ Hl). now eexists _, _.
  - destruct (parse_not_entered Scripted.chrome json_loads self fuel _ He)
      as [[Hp _] | (d & rest & st1 & l & _ & _ & _ & Hp & _)];
      [| exists (Raise TimeoutError), st1; exact Hp].
    rewrite Hp.
    destruct (document_responses Scripted.chrome self (Scripted.start w))
      as [| d rest]; [now eexists _, _ |].
    destruct (String.eqb (mimeType d) "text/html"); now eexists _, _.
Qed.

End ScriptedFacts.

(** ** The properties on scripted sessions *)

(** C1 on a scripted session: the markup is [<html></html>]. *)
Lemma missing_marker_on_a_page_without_script :
  get_internal_reviews Scripted.chrome (Scripted.loads Scripted.table)
    (Scripted.entry Scripted.no_marker)
  = Some (Raise TypeError,
          after_get_html Scripted.chrome (Scripted.entry Scripted.no_marker))
  /\ Scripted.run 1 Scripted.no_marker
     = Some (Raise TypeError,
             after_get_html Scripted.chrome
               (Scripted.entry Scripted.no_marker)).
Proof.
  apply (@missing_marker_raises_type_error _ Scripted.chrome
           (Scripted.loads Scripted.table) Scripted.parser 0
           (Scripted.start Scripted.no_marker)
           (Scripted.entry Scripted.no_marker));
    vm_compute; reflexivity.
Defined.

(** C2 as the spec states it fails on a scripted session: on a page whose
    script is never true, [parse] does not go into its loop. *)
Lemma busy_page_does_not_enter_the_loop :
  ~ timeout_not_fatal Scripted.chrome (Scripted.loads Scripted.table)
      Scripted.parser 2 (Scripted.start Scripted.never_quiet).
Proof.
  intros H.
  destruct (H Scripted.document [] eq_refl eq_refl eq_refl) as [(st1 & E) _].
  vm_compute in E. discriminate E.
Qed.

(** C2, as amended, on a scripted session: a page whose script is never
    true. *)
Lemma quiescence_timeout_on_a_busy_page :
  let st := gate_state Scripted.chrome Scripted.parser
              (Scripted.start Scripted.never_quiet) in
  exists st1,
    _wait_requests_finished Scripted.chrome st
    = Some (Raise TimeoutError, st1)
    /\ Scripted.run 2 Scripted.never_quiet = Some (Raise TimeoutError, st1)
    /\ loop_entry Scripted.chrome Scripted.parser
         (Scripted.start Scripted.never_quiet) = None
    /\ calls st1
       = (calls st
          ++ repeat (CExecuteScript "window.openHTTPs == 0")
               (S (polls_within Scripted.chrome 120 (world st))))%list.
Proof.
  cbv zeta.
  apply (@quiescence_timeout_raises _ Scripted.chrome
           (Scripted.loads Scripted.table) Scripted.parser 2
           (Scripted.start Scripted.never_quiet) Scripted.document []);
    vm_compute; reflexivity.
Defined.

(** C3 on a scripted session: a page without a [div] of empty class. *)
Lemma absent_sidebar_on_a_bare_page :
  exists st2 l,
    load_reviews Scripted.chrome Scripted.parser
      (after_get_html Scripted.chrome (Scripted.entry Scripted.no_sidebar))
    = Some (Raise IndexError, st2)
    /\ Scripted.run 1 Scripted.no_sidebar = Some (Raise IndexError, st2)
    /\ calls st2
       = (calls (after_get_html Scripted.chrome
                   (Scripted.entry Scripted.no_sidebar)) ++ l)%list
    /\ count is_perform_scroll l = O
    /\ count is_wait_responses l = O.
Proof.
  apply (@absent_sidebar_raises_index_error _ Scripted.chrome
           (Scripted.loads Scripted.table) Scripted.parser 0
           (Scripted.start Scripted.no_sidebar)
           (Scripted.entry Scripted.no_sidebar) Scripted.bootstrap);
    vm_compute; reflexivity.
Defined.

(** C4 as the spec states it fails on a scripted session: on a page with one
    bootstrap record and no pagination response, the step of the first turn
    yields no data while the list is empty, and the list returned holds the
    record. *)
Lemma first_turn_merges_after_the_step :
  ~ returned_unchanged Scripted.chrome (Scripted.loads Scripted.table)
      Scripted.parser [] true (Scripted.entry Scripted.base).
Proof.
  intros H.
  specialize (H Scripted.bootstrap
                (after_get_html Scripted.chrome (Scripted.entry Scripted.base))
                None
                (Scripted.after (load_reviews Scripted.chrome Scripted.parser)
                   (after_get_html Scripted.chrome
                      (Scripted.entry Scripted.base)))
                eq_refl eq_refl eq_refl).
  vm_compute in H. discriminate H.
Qed.

(** C4, as amended, on scripted sessions: the first turn of a page with
    one bootstrap record and no pagination response, and the second turn
    of a page with one pagination response. *)
Lemma no_data_in_the_first_and_in_a_later_turn :
  let loads := Scripted.loads Scripted.table in
  let first := Scripted.entry Scripted.base in
  let first2 := Scripted.after (load_reviews Scripted.chrome Scripted.parser)
                  (after_get_html Scripted.chrome first) in
  let later := Scripted.after
                 (loop_body Scripted.chrome loads Scripted.parser [] true)
                 (Scripted.entry Scripted.one_page) in
  let later2 := Scripted.after
                  (load_reviews Scripted.chrome Scripted.parser) later in
  let reviews := [Scripted.good_review; JStr "fine"; JStr "bad"] in
  parse_loop Scripted.chrome loads Scripted.parser 1 [] true first
  = Some (Return [Scripted.good_review], stopped Scripted.chrome first2)
  /\ parse_loop Scripted.chrome loads Scripted.parser 1 reviews false later
     = Some (Return reviews, stopped Scripted.chrome later2).
Proof.
  cbv zeta. split.
  - destruct (@no_data_ends_the_parse _ Scripted.chrome
                (Scripted.loads Scripted.table) Scripted.parser 0 [] true
                (Scripted.entry Scripted.base) Scripted.bootstrap
                (after_get_html Scripted.chrome
                   (Scripted.entry Scripted.base))
                None
                (Scripted.after
                   (load_reviews Scripted.chrome Scripted.parser)
                   (after_get_html Scripted.chrome
                      (Scripted.entry Scripted.base))))
      as (_ & _ & _ & _ & _ & Hobject & _);
      [vm_compute; reflexivity | vm_compute; reflexivity | reflexivity |].
    apply (Hobject [("u1", Scripted.good_review)] eq_refl).
    repeat constructor. simpl. tauto.
  - destruct (@no_data_ends_the_parse _ Scripted.chrome
                (Scripted.loads Scripted.table) Scripted.parser 0
                [Scripted.good_review; JStr "fine"; JStr "bad"] false
                (Scripted.after
                   (loop_body Scripted.chrome
                      (Scripted.loads Scripted.table) Scripted.parser
                      [] true)
                   (Scripted.entry Scripted.one_page))
                JNull
                (Scripted.after
                   (loop_body Scripted.chrome
                      (Scripted.loads Scripted.table) Scripted.parser
                      [] true)
                   (Scripted.entry Scripted.one_page))
                None
                (Scripted.after
                   (load_reviews Scripted.chrome Scripted.parser)
                   (Scripted.after
                      (loop_body Scripted.chrome
                         (Scripted.loads Scripted.table) Scripted.parser
                         [] true)
                      (Scripted.entry Scripted.one_page))))
      as (_ & _ & _ & Hlater & _);
      [vm_compute; reflexivity | vm_compute; reflexivity | reflexivity |].
    exact (Hlater eq_refl).
Defined.

(** C5 as the spec states it fails on a scripted session: a 404 document of
    another content type, with [skip_404_response] set, is one of its
    early-failure cases, and [parse] raises instead of returning [None]. *)
Lemma skipped_404_of_another_type_raises :
  ~ none_iff_early_failure Scripted.chrome (Scripted.loads Scripted.table)
      Scripted.parser 1 (Scripted.start Scripted.wrong_type_404).
Proof.
  intros [_ H].
  destruct H as (st' & E).
  - right. exists Scripted.not_found_json, []. now repeat split.
  - vm_compute in E. discriminate E.
Qed.

(** C6 on a scripted session: one bootstrap record, then a batch of two. *)
Lemma bootstrap_before_the_first_batch :
  let st' := Scripted.after
               (parse Scripted.chrome (Scripted.loads Scripted.table)
                  Scripted.parser 2)
               (Scripted.start Scripted.one_page) in
  (exists l, calls st'
             = (calls (Scripted.entry Scripted.one_page) ++ CGetHtml :: l)%list
             /\ count is_get_html l = O)
  /\ count is_get_html (calls st')
     = S (count is_get_html (calls (Scripted.start Scripted.one_page)))
  /\ (forall reviews,
      Return (Some [Scripted.good_review; JStr "fine"; JStr "bad"])
      = Return (Some reviews) ->
      exists ir st1 doc st2 blob batch rest,
        get_internal_reviews Scripted.chrome (Scripted.loads Scripted.table)
          (Scripted.entry Scripted.one_page) = Some (Return ir, st1)
        /\ load_reviews Scripted.chrome Scripted.parser st1
           = Some (Return doc, st2)
        /\ merge_internal [] ir = Return blob
        /\ merge_doc (Scripted.loads Scripted.table) [] doc = Return batch
        /\ reviews = (blob ++ batch ++ rest)%list).
Proof.
  cbv zeta.
  apply (@bootstrap_once_and_first _ Scripted.chrome
           (Scripted.loads Scripted.table) Scripted.parser 2
           (Scripted.start Scripted.one_page)
           (Scripted.entry Scripted.one_page));
    vm_compute; reflexivity.
Defined.

(** C7 on a scripted session: a document of content type
    [application/json]. *)
Lemma assertion_on_a_json_document :
  (exists st', Scripted.run 1 Scripted.wrong_type_404
               = Some (Raise AssertionError, st'))
  <-> mimeType Scripted.not_found_json <> "text/html".
Proof.
  apply (@assertion_iff_unexpected_content_type _ Scripted.chrome
           (Scripted.loads Scripted.table) Scripted.parser 1
           (Scripted.start Scripted.wrong_type_404)
           Scripted.not_found_json []).
  vm_compute; reflexivity.
Defined.

(** C8 on a scripted session: one pagination response, then none. *)
Lemma termination_after_one_page :
  exists r st',
    Scripted.run 2 Scripted.one_page = Some (r, st')
    /\ forall fuel', (2 <= fuel')%nat ->
                     Scripted.run fuel' Scripted.one_page = Some (r, st').
Proof.
  apply (@parse_terminates_on_a_dry_step _ Scripted.chrome
           (Scripted.loads Scripted.table) Scripted.parser 1 2
           (Scripted.start Scripted.one_page)).
  - intros st0 E. vm_compute in E. inversion E; subst. vm_compute.
    reflexivity.
  - lia.
Defined.


(** C10 on a scripted session: the run that returns the list stops the
    session. *)
Lemma stop_on_a_page_with_one_response :
  let st' := Scripted.after
               (parse Scripted.chrome (Scripted.loads Scripted.table)
                  Scripted.parser 2)
               (Scripted.start Scripted.one_page) in
  let r := Return (Some [Scripted.good_review; JStr "fine"; JStr "bad"]) in
  exists l,
    calls st' = (calls (Scripted.start Scripted.one_page) ++ l)%list
    /\ count is_stop l = (if is_list r then 1 else 0)%nat
    /\ (is_list r = true -> exists st2, st' = stopped Scripted.chrome st2)
    /\ (r = Return None ->
        st' = gate_state Scripted.chrome Scripted.parser
                (Scripted.start Scripted.one_page)
        /\ l = [CNavigate (_url Scripted.parser) "https://google.com" 120;
                CGetResponses 5]).
Proof.
  cbv zeta.
  apply (@stop_exactly_when_a_list_is_returned _ Scripted.chrome
           (Scripted.loads Scripted.table) Scripted.parser 2
           (Scripted.start Scripted.one_page)).
  vm_compute; reflexivity.
Defined.

(** Termination on a scripted session with one page of responses. *)
Lemma scripted_termination_with_one_page :
  exists r st', Scripted.run 2 Scripted.one_page = Some (r, st').
Proof.
  apply (@scripted_parse_terminates (Scripted.loads Scripted.table)
           Scripted.parser Scripted.one_page 2).
  vm_compute. lia.
Defined.

(** ** Further properties of the loop *)

Section MoreProperties.

Context {W : Type} (chrome : ChromeRemote W).
Variable json_loads : string -> option json.
Variable self : ReviewsParser.

Lemma merge_internal_prepend reviews ir :
  merge_internal reviews ir = prepend reviews (merge_internal [] ir).
Proof.
  unfold merge_internal, append_internal.
  destruct (Py.truthy ir); [| cbn; now rewrite app_nil_r].
  destruct (Py.iter ir) as [ids | e]; [| reflexivity].
  rewrite !append_each_getitems.
  destruct (getitems ir ids); reflexivity.
Qed.

Lemma merge_doc_prepend reviews doc :
  merge_doc json_loads reviews doc
  = prepend reviews (merge_doc json_loads [] doc).
Proof.
  unfold merge_doc, append_doc.
  destruct doc as [s |]; [| cbn; now rewrite app_nil_r].
  destruct (PyStr.truthy s); [| cbn; now rewrite app_nil_r].
  destruct (json_loads s) as [v |]; [| reflexivity].
  destruct (Py.getitem v (JStr "reviews")) as [x | e]; [| reflexivity].
  destruct (Py.iter x); reflexivity.
Qed.

Lemma prepend_prepend a b o :
  prepend a (prepend b o) = prepend (a ++ b)%list o.
Proof. destruct o; cbn; [now rewrite app_assoc | reflexivity]. Qed.

(** The loop appends: what it adds to the list, its outcome and its final
    state do not depend on the records already in the list. *)
Theorem parse_loop_appends fuel : forall reviews g st,
  parse_loop chrome json_loads self fuel reviews g st
  = match parse_loop chrome json_loads self fuel [] g st with
    | Some (r, st') => Some (prepend reviews r, st')
    | None => None
    end.
Proof.
  induction fuel as [| fuel IH]; intros reviews g st; [reflexivity |].
  destruct (total_internal_phase chrome json_loads g st) as (ri & st1 & Hi).
  destruct ri as [ir | e].
  { destruct (total_load_reviews chrome self st1) as (rl & st2 & Hl).
    destruct rl as [doc | e].
    - assert (Hb : forall rs,
                 loop_body chrome json_loads self rs g st
                 = match prepend rs (merge_internal [] ir) with
                   | Raise e => Some (Raise e, st2)
                   | Return rs1 =>
                       match prepend rs1 (merge_doc json_loads [] doc) with
                       | Raise e => Some (Raise e, st2)
                       | Return rs2 =>
                           if doc_truthy doc
                           then Some (Return (Again rs2 false), st2)
                           else Some (Return (Returned rs2),
                                      stopped chrome st2)
                       end
                   end).
      { intros rs. erewrite loop_body_run; [| exact Hi | exact Hl].
        rewrite (merge_internal_prepend rs ir).
        destruct (prepend rs (merge_internal [] ir)) as [rs1 | e];
          [| reflexivity].
        now rewrite (merge_doc_prepend rs1 doc). }
      cbn [parse_loop]. unfold bind. rewrite !Hb.
      destruct (merge_internal [] ir) as [blob | e]; cbn [prepend];
        [| reflexivity].
      destruct (merge_doc json_loads [] doc) as [batch | e];
        cbn [prepend app]; [| reflexivity].
      destruct (doc_truthy doc); [| cbn; now rewrite app_assoc].
      change (parse_loop chrome json_loads self fuel
                ((reviews ++ blob) ++ batch)%list false st2
              = match parse_loop chrome json_loads self fuel
                        (blob ++ batch)%list false st2 with
                | Some (r, st') => Some (prepend reviews r, st')
                | None => None
                end).
      rewrite (IH ((reviews ++ blob) ++ batch)%list).
      rewrite (IH (blob ++ batch)%list).
      destruct (parse_loop chrome json_loads self fuel [] false st2)
        as [[r st'] |]; [| reflexivity].
      now rewrite prepend_prepend, app_assoc.
    - assert (Hb : forall rs, loop_body chrome json_loads self rs g st
                              = Some (Raise e, st2)).
      { intros rs. unfold loop_body.
        fold (internal_phase chrome json_loads g).
        rewrite (bind_return _ _ _ Hi). cbv zeta.
        now rewrite (bind_raise _ _ _ Hl). }
      cbn [parse_loop]. now rewrite !(bind_raise _ _ _ (Hb _)). }
  assert (Hb : forall rs, loop_body chrome json_loads self rs g st
                          = Some (Raise e, st1)).
  { intros rs. unfold loop_body. fold (internal_phase chrome json_loads g).
    now rewrite (bind_raise _ _ _ Hi). }
  cbn [parse_loop]. now rewrite !(bind_raise _ _ _ (Hb _)).
Qed.

(** A pagination body that is not valid JSON, or that has no [reviews]
    key, is not caught as the bootstrap one is: the turn and the loop end
    in the exception, in the state [load_reviews] left, with the session
    not stopped. *)
Theorem malformed_body_aborts fuel reviews g st ir st1 s st2 rs1 :
  internal_phase chrome json_loads g st = Some (Return ir, st1) ->
  load_reviews chrome self st1 = Some (Return (Some s), st2) ->
  PyStr.truthy s = true ->
  merge_internal reviews ir = Return rs1 ->
  (json_loads s = None ->
   parse_loop chrome json_loads self (S fuel) reviews g st
   = Some (Raise JSONDecodeError, st2))
  /\ (forall kvs, json_loads s = Some (JDict kvs) ->
                  Py.lookup "reviews" kvs = None ->
                  parse_loop chrome json_loads self (S fuel) reviews g st
                  = Some (Raise KeyError, st2))
  /\ exists l, calls st2 = (calls st ++ l)%list /\ count is_stop l = O.
Proof.
  intros Hi Hl Ht Hm.
  assert (Hb : forall e, merge_doc json_loads rs1 (Some s) = Raise e ->
                         parse_loop chrome json_loads self (S fuel)
                           reviews g st = Some (Raise e, st2)).
  { intros e He. cbn [parse_loop]. unfold bind.
    erewrite loop_body_run; [| exact Hi | exact Hl].
    now rewrite Hm, He. }
  split; [| split].
  - intros Hj. apply Hb. unfold merge_doc, append_doc. now rewrite Ht, Hj.
  - intros kvs Hj Hk. apply Hb. unfold merge_doc, append_doc.
    rewrite Ht, Hj. cbn. now rewrite Hk.
  - assert (Hs : exists l0, calls st1 = (calls st ++ l0)%list
                            /\ count is_stop l0 = O).
    { destruct g.
      - unfold internal_phase in Hi. rewrite get_internal_reviews_run in Hi.
        inversion Hi; subst. now exists [CGetHtml].
      - inversion Hi; subst. exists []. now rewrite app_nil_r. }
    destruct Hs as (l0 & E0 & S0).
    destruct (respects_load_reviews chrome self _ Hl) as [(l1 & E1 & F1) _].
    destruct (inner_call_counts _ F1) as [_ S1].
    exists (l0 ++ l1)%list. rewrite E1, E0, app_assoc, count_app, S0, S1.
    now split.
Qed.

(** With no pagination response at all, [parse] returns the records of
    the bootstrap object, in the order of its keys, and stops the
    session. *)
Theorem bootstrap_alone_is_returned fuel st st0 kvs doc st2 :
  loop_entry chrome self st = Some st0 ->
  extract json_loads (fst (get_html chrome (world st0))) = Return (JDict kvs) ->
  NoDup (map fst kvs) ->
  load_reviews chrome self (after_get_html chrome st0)
  = Some (Return doc, st2) ->
  doc_truthy doc = false ->
  parse chrome json_loads self (S fuel) st
  = Some (Return (Some (map snd kvs)), stopped chrome st2).
Proof.
  intros He Hx Hn Hl Hd.
  rewrite (parse_entered chrome json_loads self (S fuel) _ He).
  assert (Hi : internal_phase chrome json_loads true st0
               = Some (Return (JDict kvs), after_get_html chrome st0)).
  { unfold internal_phase. rewrite get_internal_reviews_run. now rewrite Hx. }
  erewrite bind_return; [reflexivity |].
  erewrite parse_loop_last_turn; [| exact Hi | exact Hl | exact Hd].
  unfold last_turn. now rewrite (@merge_internal_object [] kvs Hn).
Qed.

(** A bootstrap value that is truthy and neither an object nor an array
    (a non-empty string, a non-zero number, [true]) cannot be iterated or
    subscripted: the merge, and with it the first turn, ends in a
    [TypeError], after [load_reviews] has run. *)
Theorem scalar_bootstrap_raises_type_error fuel reviews st ir st1 doc st2 :
  internal_phase chrome json_loads true st = Some (Return ir, st1) ->
  load_reviews chrome self st1 = Some (Return doc, st2) ->
  Py.truthy ir = true ->
  (forall kvs, ir <> JDict kvs) ->
  (forall l, ir <> JList l) ->
  merge_internal reviews ir = Raise TypeError
  /\ parse_loop chrome json_loads self (S fuel) reviews true st
     = Some (Raise TypeError, st2).
Proof.
  intros Hi Hl Ht Hd Hlist.
  assert (Hm : merge_internal reviews ir = Raise TypeError).
  { unfold merge_internal, append_internal. rewrite Ht.
    destruct ir as [| b | z | f | s | l | kvs]; cbn in *;
      try reflexivity; try discriminate.
    - destruct s as [| a s]; [discriminate |]. reflexivity.
    - now elim (Hlist l).
    - now elim (Hd kvs). }
  split; [exact Hm |].
  cbn [parse_loop]. unfold bind.
  erewrite loop_body_run; [| exact Hi | exact Hl]. now rewrite Hm.
Qed.

Lemma poll_get_document (f : DOMNode -> list DOMNode) n : forall st r st',
  poll nonempty
    (dom_tree <- call CGetDocument (get_document chrome) ;;
     ret (f dom_tree)) n st = Some (r, st') ->
  exists k nodes b,
    r = Return (nodes, b)
    /\ (k <= n)%nat
    /\ calls st' = (calls st ++ repeat CGetDocument (S k))%list.
Proof.
  induction n as [| n IH]; intros st r st' H; cbn [poll] in H;
    unfold bind at 1 in H; unfold bind at 1 in H; rewrite call_run in H;
    unfold ret at 1 in H;
    destruct (nonempty (f (fst (get_document chrome (world st))))).
  - inversion H; subst. eexists O, _, _.
    split; [reflexivity |]. split; [lia | reflexivity].
  - inversion H; subst. eexists O, _, _.
    split; [reflexivity |]. split; [lia | reflexivity].
  - inversion H; subst. eexists O, _, _.
    split; [reflexivity |]. split; [lia | reflexivity].
  - destruct (IH _ _ _ H) as (k & nodes & b & -> & Hk & C).
    exists (S k), nodes, b. repeat split; [lia |].
    rewrite C. cbn [calls repeat]. now rewrite <- app_assoc.
Qed.

(** The calls of a pagination step that returns: the pacing wait when a
    delay is configured, the polls of the DOM, one scroll, one wait for a
    response, and the fetch of its body when one of non-negative status
    was captured. *)
Theorem load_reviews_call_shape st doc st' :
  load_reviews chrome self st = Some (Return doc, st') ->
  exists k sidebar body,
    calls st'
    = (calls st
       ++ (if delay_between_clicks (_options self) =? 0 then []
           else [CWait (delay_between_clicks (_options self))])
       ++ repeat CGetDocument (S k)
       ++ [CPerformScroll sidebar;
           CWaitResponses (_item_response_pattern self)]
       ++ body)%list
    /\ (k <= polls_within chrome 5 (world (after_delay chrome self st)))%nat
    /\ (body = [] /\ doc = None
        \/ exists r, body = [CGetResponseBody r 10] /\ 0 <= status r).
Proof.
  rewrite load_reviews_phases. intros H.
  destruct (bind_inv _ _ _ H) as [([] & st3 & Hs & Hf) | (e & _ & E)];
    [| discriminate].
  clear H. unfold scroll_phase in Hs. cbv zeta in Hs.
  destruct (bind_inv _ _ _ Hs) as [([] & sd & Hd & Hs1) | (e & _ & E)];
    [| discriminate].
  clear Hs.
  assert (Ed : sd = after_delay chrome self st).
  { unfold after_delay. cbv zeta.
    destruct (delay_between_clicks (_options self) =? 0).
    - now inversion Hd.
    - unfold call_ in Hd. rewrite call_run in Hd. now inversion Hd. }
  assert (Cd : calls sd
               = (calls st
                  ++ (if delay_between_clicks (_options self) =? 0 then []
                      else [CWait (delay_between_clicks (_options self))]))
                 %list).
  { rewrite Ed. unfold after_delay. cbv zeta.
    destruct (delay_between_clicks (_options self) =? 0);
      [now rewrite app_nil_r | reflexivity]. }
  destruct (bind_inv _ _ _ Hs1) as [(nodes & sn & Hn & Hs2) | (e & _ & E)];
    [| discriminate].
  clear Hs1. unfold _get_sidebar, wait_until_finished in Hn.
  destruct (bind_inv _ _ _ Hn) as [([nodes' b] & sp & Hp & Hr) | (e & Hp & _)].
  2:{ destruct (poll_get_document _ _ _ Hp) as (? & ? & ? & C & _).
      discriminate. }
  destruct (poll_get_document _ _ _ Hp) as (k & ? & ? & _ & Hk & Cp).
  assert (Cn : calls sn = calls sp).
  { cbn [fst snd] in Hr. destruct b; now inversion Hr. }
  destruct (bind_inv _ _ _ Hs2) as [(sidebar & sl & Hg & Hc) | (e & _ & E)];
    [| discriminate].
  inversion Hg; subst sl. clear Hg Hs2.
  unfold call_ in Hc. rewrite call_run in Hc. inversion Hc; subst st3.
  clear Hc. unfold fetch_phase in Hf. unfold bind at 1 in Hf.
  rewrite call_run in Hf. cbn [fst snd world calls] in Hf.
  exists k, sidebar.
  destruct (fst (wait_responses chrome _ _)) as [r |].
  - destruct (0 <=? status r) eqn:E0.
    + rewrite call_run in Hf. inversion Hf; subst.
      exists [CGetResponseBody r 10]. cbn [calls].
      rewrite Cn, Cp, Cd, <- !app_assoc. cbn [app].
      split; [reflexivity |]. split; [exact Hk |].
      right. exists r. split; [reflexivity |]. now apply Z.leb_le.
    + inversion Hf; subst. exists []. cbn [calls].
      rewrite Cn, Cp, Cd, <- !app_assoc. cbn [app].
      split; [reflexivity |]. split; [exact Hk |]. now left.
  - inversion Hf; subst. exists []. cbn [calls].
    rewrite Cn, Cp, Cd, <- !app_assoc. cbn [app].
    split; [reflexivity |]. split; [exact Hk |]. now left.
Qed.

End MoreProperties.

(** ** The text operations of [get_internal_reviews] *)

Lemma occurs_app c s1 s2 :
  occurs c (s1 ++ s2) = occurs c s1 || occurs c s2.
Proof.
  induction s1 as [| a s1 IH]; cbn; [reflexivity |].
  now rewrite IH, orb_assoc.
Qed.

Lemma strip_prefix_occurs c p : forall s s',
  PyStr.strip_prefix p s = Some s' ->
  occurs c p = true -> occurs c s = true.
Proof.
  induction p as [| a p IH]; intros s s' H Hc; [discriminate |].
  destruct s as [| b s]; [discriminate |]. cbn in *.
  destruct (Ascii.eqb a b) eqn:E; [| discriminate].
  apply Ascii.eqb_eq in E. subst b.
  destruct (Ascii.eqb c a); [reflexivity |]. cbn in *. eauto.
Qed.

(** A replacement brings in no character that is neither in the text nor
    in the new string. *)
Lemma replace_go_occurs c old new : forall s skip,
  occurs c s = false -> occurs c new = false ->
  occurs c (PyStr.replace_go old new skip s) = false.
Proof.
  induction s as [| a s IH]; intros skip Hs Hn; [reflexivity |].
  cbn in Hs. apply orb_false_iff in Hs as [Ha Hs].
  cbn [PyStr.replace_go]. destruct skip as [| k]; [| now apply IH].
  destruct (PyStr.startswith (String a s) old).
  - rewrite occurs_app, Hn. now apply IH.
  - cbn. rewrite Ha. now apply IH.
Qed.

(** Replacing a character removes it. *)
Lemma replace_char_removes c new : forall s,
  occurs c new = false ->
  occurs c (PyStr.replace s (String c EmptyString) new) = false.
Proof.
  unfold PyStr.replace. intros s Hn.
  induction s as [| a s IH]; [reflexivity |].
  cbn [PyStr.replace_go]. unfold PyStr.startswith. cbn [PyStr.strip_prefix].
  destruct (Ascii.eqb c a) eqn:E; cbn.
  - now rewrite occurs_app, Hn, IH.
  - now rewrite E, IH.
Qed.

(** A text that lacks a character of [old] is left as it is. *)
Lemma replace_absent c old new : forall s,
  occurs c old = true -> occurs c s = false ->
  PyStr.replace s old new = s.
Proof.
  unfold PyStr.replace. intros s Ho.
  induction s as [| a s IH]; intros Hs; [reflexivity |].
  cbn [PyStr.replace_go].
  destruct (PyStr.startswith (String a s) old) eqn:E.
  - unfold PyStr.startswith in E.
    destruct (PyStr.strip_prefix old (String a s)) as [s' |] eqn:Ep;
      [| discriminate].
    rewrite (strip_prefix_occurs c _ _ Ep Ho) in Hs. discriminate.
  - cbn in Hs. apply orb_false_iff in Hs as [_ Hs]. now rewrite IH.
Qed.

(** The normalized window holds no line feed and no single quote; a
    window without line feed, backslash and single quote is left as it
    is. *)
Theorem normalize_removes_line_feeds_and_single_quotes s :
  occurs lf_char (normalize s) = false
  /\ occurs sq (normalize s) = false
  /\ (occurs lf_char s = false -> occurs backslash s = false ->
      occurs sq s = false -> normalize s = s).
Proof.
  unfold normalize. split; [| split].
  - apply replace_go_occurs; [| reflexivity].
    apply replace_go_occurs; [| reflexivity].
    now apply (replace_char_removes lf_char).
  - now apply (replace_char_removes sq).
  - intros Hl Hb Hq.
    rewrite (replace_absent lf_char (PyStr.cr ++ PyStr.lf) "" s eq_refl Hl).
    rewrite (replace_absent lf_char PyStr.lf "" s eq_refl Hl).
    rewrite (replace_absent backslash "\\" "\" s eq_refl Hb).
    now rewrite (replace_absent sq "'" PyStr.dq s eq_refl Hq).
Qed.

(** A match holds as many groups as the pattern has. *)
Lemma match_here_groups r : forall pre rest gs,
  Re.match_here r pre rest = Some gs -> length gs = count_groups r.
Proof.
  induction r as [| a r IH]; intros pre rest gs H.
  - now inversion H.
  - destruct a as [l | l | c | c]; cbn [Re.match_here count_groups] in *.
    + destruct (PyStr.strip_prefix l rest); [eauto | discriminate].
    + destruct (PyStr.startswith pre (PyStr.rev l)); [eauto | discriminate].
    + revert H. generalize EmptyString. revert pre.
      induction rest as [| b rest IHr]; intros pre acc H.
      * destruct (Re.match_here r pre EmptyString) as [gs' |] eqn:E;
          [| discriminate].
        inversion H; subst. cbn. f_equal. eauto.
      * destruct (Re.match_here r pre (String b rest)) as [gs' |] eqn:E.
        -- inversion H; subst. cbn. f_equal. eauto.
        -- destruct (Re.in_class c b); [eauto | discriminate].
    + destruct rest as [| b rest]; [discriminate |].
      destruct (Re.in_class c b); [| discriminate].
      revert H. generalize (String b pre).
      induction rest as [| d rest IHr]; intros pre' H; [eauto |].
      destruct (Re.in_class c d); [| eauto].
      match type of H with
      | match ?x with _ => _ end = _ => destruct x as [gs' |] eqn:E
      end; [| eauto].
      inversion H; subst. eauto.
Qed.

(** ** What [regex_json] finds *)

Lemma str_app_assoc (a b c : string) : (a ++ b) ++ c = a ++ (b ++ c).
Proof. induction a as [| x a IH]; cbn; [reflexivity | now rewrite IH]. Qed.

Lemma str_app_nil_r (s : string) : s ++ "" = s.
Proof. induction s as [| x s IH]; cbn; [reflexivity | now rewrite IH]. Qed.

Lemma strip_prefix_app p s : PyStr.strip_prefix p (p ++ s) = Some s.
Proof.
  induction p as [| a p IH]; cbn; [reflexivity |].
  now rewrite Ascii.eqb_refl.
Qed.

Lemma strip_prefix_inv p : forall s s',
  PyStr.strip_prefix p s = Some s' -> s = p ++ s'.
Proof.
  induction p as [| a p IH]; intros s s' H; cbn in *; [now inversion H |].
  destruct s as [| b s]; [discriminate |].
  destruct (Ascii.eqb a b) eqn:E; [| discriminate].
  apply Ascii.eqb_eq in E. subst. now rewrite (IH _ _ H).
Qed.

Lemma rev_onto_app s : forall acc,
  PyStr.rev (PyStr.rev_onto s acc) = PyStr.rev acc ++ s.
Proof.
  unfold PyStr.rev.
  assert (G : forall a b, PyStr.rev_onto a b
                          = PyStr.rev_onto a EmptyString ++ b).
  { induction a as [| x a IH]; intros b; cbn; [reflexivity |].
    rewrite (IH (String x b)), (IH (String x EmptyString)).
    now rewrite str_app_assoc. }
  induction s as [| x s IH]; intros acc; cbn.
  - now rewrite str_app_nil_r.
  - rewrite IH. cbn. rewrite (G acc (String x EmptyString)).
    now rewrite str_app_assoc.
Qed.

(** Without look-behind, the text before the position does not matter. *)
Lemma match_here_pre r :
  no_lookbehind r = true ->
  forall pre pre' rest, Re.match_here r pre rest = Re.match_here r pre' rest.
Proof.
  induction r as [| a r IH]; intros Hn pre pre' rest; [reflexivity |].
  destruct a as [l | l | c | c]; cbn [no_lookbehind] in Hn;
    try discriminate; cbn [Re.match_here].
  - destruct (PyStr.strip_prefix l rest); [now apply IH | reflexivity].
  - generalize EmptyString. revert pre pre'.
    induction rest as [| b rest IHr]; intros pre pre' acc; simpl;
      rewrite (IH Hn pre pre'); [reflexivity |].
    destruct (Re.match_here r pre' (String b rest)); [reflexivity |].
    destruct (Re.in_class c b); [apply IHr | reflexivity].
  - destruct rest as [| b rest]; [reflexivity |].
    destruct (Re.in_class c b); [| reflexivity].
    generalize (String b pre) (String b pre').
    induction rest as [| d rest IHr]; intros p p'; simpl;
      [now apply IH |].
    destruct (Re.in_class c d); [| now apply IH].
    rewrite (IHr (String d p) (String d p')), (IH Hn p p'). reflexivity.
Qed.

(** What a lazy group matches: the shortest text after which the rest of
    the pattern matches. *)
Lemma lazy_group_sound c r pre rest gs :
  Re.match_here (Re.LazyGroup c :: r) pre rest = Some gs ->
  exists g post gs' pre',
    rest = g ++ post /\ gs = g :: gs'
    /\ Re.match_here r pre' post = Some gs'.
Proof.
  cbn [Re.match_here].
  assert (G : forall rest acc pre,
             (fix lazy (acc pre rest : string) {struct rest}
                : option (list string) :=
                match Re.match_here r pre rest with
                | Some gs => Some (PyStr.rev acc :: gs)
                | None =>
                    match rest with
                    | String a rest' =>
                        if Re.in_class c a
                        then lazy (String a acc) (String a pre) rest'
                        else None
                    | EmptyString => None
                    end
                end) acc pre rest = Some gs ->
             exists g post gs' pre',
               rest = g ++ post /\ gs = (PyStr.rev acc ++ g) :: gs'
               /\ Re.match_here r pre' post = Some gs').
  { clear pre rest. induction rest as [| b rest IHr]; intros acc pre H;
      simpl in H.
    - destruct (Re.match_here r pre EmptyString) as [gs' |] eqn:E;
        [| discriminate].
      inversion H; subst. exists EmptyString, EmptyString, gs', pre.
      now rewrite !str_app_nil_r.
    - destruct (Re.match_here r pre (String b rest)) as [gs' |] eqn:E.
      + inversion H; subst. exists EmptyString, (String b rest), gs', pre.
        now rewrite !str_app_nil_r.
      + destruct (Re.in_class c b); [| discriminate].
        destruct (IHr _ _ H) as (g & post & gs' & pre' & -> & -> & Hm).
        exists (String b g), post, gs', pre'. repeat split; [| exact Hm].
        f_equal.
        change (String b acc)
          with (PyStr.rev_onto (String b EmptyString) acc).
        rewrite rev_onto_app. now rewrite str_app_assoc. }
  intros H. destruct (G _ _ _ H) as (g & post & gs' & pre' & E1 & E2 & Hm).
  now exists g, post, gs', pre'.
Qed.

Lemma lazy_group_complete r g : forall pre post,
  (forall pre', Re.match_here r pre' post <> None) ->
  Re.match_here (Re.LazyGroup Re.AnyChar :: r) pre (g ++ post) <> None.
Proof.
  intros pre post Hm. cbn [Re.match_here]. generalize EmptyString.
  revert pre. induction g as [| b g IH]; intros pre acc; cbn [append].
  - destruct post as [| d post]; simpl;
      (destruct (Re.match_here r pre _) eqn:E; [discriminate |]);
      now elim (Hm pre).
  - simpl. destruct (Re.match_here r pre (String b (g ++ post)));
      [discriminate | apply IH].
Qed.

(** What a greedy run matches: a non-empty run of the class, after which
    the rest of the pattern matches. *)
Lemma greedy_plus_sound c r pre rest gs :
  Re.match_here (Re.GreedyPlus c :: r) pre rest = Some gs ->
  exists ws post pre',
    rest = ws ++ post /\ ws <> EmptyString
    /\ all_chars (Re.in_class c) ws = true
    /\ Re.match_here r pre' post = Some gs.
Proof.
  cbn [Re.match_here]. destruct rest as [| b rest]; [discriminate |].
  destruct (Re.in_class c b) eqn:Eb; [| discriminate].
  generalize (String b pre). intros p H.
  assert (G : exists ws post pre',
             rest = ws ++ post /\ all_chars (Re.in_class c) ws = true
             /\ Re.match_here r pre' post = Some gs).
  { revert p H. induction rest as [| d rest IHr]; intros p H; simpl in H.
    - now exists EmptyString, EmptyString, p.
    - destruct (Re.in_class c d) eqn:Ed.
      + match type of H with
        | match ?x with _ => _ end = _ => destruct x as [gs' |] eqn:E
        end.
        * inversion H; subst.
          destruct (IHr _ E) as (ws & post & pre' & -> & Hw & Hm).
          exists (String d ws), post, pre'. cbn. now rewrite Ed.
        * now exists EmptyString, (String d rest), p.
      + now exists EmptyString, (String d rest), p. }
  destruct G as (ws & post & pre' & -> & Hw & Hm).
  exists (String b ws), post, pre'. cbn. rewrite Eb. now repeat split.
Qed.

Lemma greedy_plus_complete c r ws : forall pre post,
  ws <> EmptyString ->
  all_chars (Re.in_class c) ws = true ->
  (forall pre', Re.match_here r pre' post <> None) ->
  Re.match_here (Re.GreedyPlus c :: r) pre (ws ++ post) <> None.
Proof.
  intros pre post Hne Hw Hm. cbn [Re.match_here].
  destruct ws as [| b ws]; [now elim Hne |]. cbn [append].
  cbn in Hw. apply andb_prop in Hw as [Hb Hw]. rewrite Hb.
  generalize (String b pre). clear Hb Hne.
  induction ws as [| d ws IH]; intros p; cbn [append].
  - destruct post as [| x post]; simpl; [apply Hm |].
    destruct (Re.in_class c x); [| apply Hm].
    match goal with
    | |- match ?x with _ => _ end <> None => destruct x
    end; [discriminate | apply Hm].
  - cbn in Hw. apply andb_prop in Hw as [Hd Hw]. simpl. rewrite Hd.
    match goal with
    | |- match ?x with _ => _ end <> None => destruct x eqn:E
    end; [discriminate |].
    now elim (IH Hw (String d p)).
Qed.

Lemma lit_sound l r pre rest gs :
  Re.match_here (Re.Lit l :: r) pre rest = Some gs ->
  exists rest', rest = l ++ rest'
                /\ Re.match_here r (PyStr.rev_onto l pre) rest' = Some gs.
Proof.
  cbn [Re.match_here].
  destruct (PyStr.strip_prefix l rest) as [rest' |] eqn:E; [| discriminate].
  intros H. exists rest'. split; [now apply strip_prefix_inv | exact H].
Qed.

Lemma lit_complete l r pre rest :
  Re.match_here (Re.Lit l :: r) pre (l ++ rest)
  = Re.match_here r (PyStr.rev_onto l pre) rest.
Proof. cbn [Re.match_here]. now rewrite strip_prefix_app. Qed.

Lemma rev_onto_onto a : forall b acc,
  PyStr.rev_onto (a ++ b) acc = PyStr.rev_onto b (PyStr.rev_onto a acc).
Proof. induction a as [| x a IH]; intros b acc; cbn; [reflexivity | apply IH]. Qed.

(** A search finds its match at some position of the text. *)
Lemma search_from_sound r : forall rest pre m,
  Re.search_from r pre rest = Some m ->
  exists a b, rest = a ++ b
              /\ Re.match_here r (PyStr.rev_onto a pre) b
                 = Some (Re.groups m).
Proof.
  induction rest as [| x rest IH]; intros pre m H; cbn [Re.search_from] in H.
  - destruct (Re.match_here r pre EmptyString) as [gs |] eqn:E;
      [| discriminate].
    inversion H; subst. now exists EmptyString, EmptyString.
  - destruct (Re.match_here r pre (String x rest)) as [gs |] eqn:E.
    + inversion H; subst. now exists EmptyString, (String x rest).
    + destruct (IH _ _ H) as (a & b & -> & Hm).
      now exists (String x a), b.
Qed.

Lemma search_from_complete r a : forall b pre,
  (forall pre', Re.match_here r pre' b <> None) ->
  Re.search_from r pre (a ++ b) <> None.
Proof.
  induction a as [| x a IH]; intros b pre Hm; cbn [append].
  - destruct b as [| y b]; cbn [Re.search_from];
      (destruct (Re.match_here r pre _) eqn:E; [discriminate |]);
      now elim (Hm pre).
  - cbn [Re.search_from].
    destruct (Re.match_here r pre (String x (a ++ b)));
      [discriminate | now apply IH].
Qed.

(** [regex_json] finds a match exactly in a markup that holds the
    bootstrap assignment, and its group is the blob of such an
    assignment. *)
Theorem regex_json_finds_the_bootstrap html :
  (forall m, Re.search regex_json html = Some m ->
             exists g, Re.groups m = [g] /\ has_bootstrap html g)
  /\ (forall g, has_bootstrap html g ->
                exists m, Re.search regex_json html = Some m).
Proof.
  split.
  - intros m H. unfold Re.search in H.
    destruct (search_from_sound _ _ _ H) as (a & b & -> & Hm).
    unfold regex_json in Hm.
    destruct (lit_sound _ _ _ _ Hm) as (r1 & -> & H1).
    destruct (lazy_group_sound _ _ _ _ H1)
      as (g & p1 & gs' & pre1 & -> & Eg & H2).
    destruct (lit_sound _ _ _ _ H2) as (p2 & -> & H3).
    destruct (greedy_plus_sound _ _ _ _ H3)
      as (ws & p3 & pre3 & -> & Hne & Hw & H4).
    destruct (lit_sound _ _ _ _ H4) as (p4 & -> & H5).
    inversion H5; subst gs'. exists g. split; [exact Eg |].
    now exists a, ws, p4.
  - intros g (pre & ws & post & -> & Hne & Hw).
    destruct (Re.search regex_json _) as [m |] eqn:E; [now exists m |].
    exfalso. revert E. unfold Re.search. apply search_from_complete.
    intros pre'. unfold regex_json. rewrite lit_complete.
    apply lazy_group_complete. intros pre1. rewrite lit_complete.
    apply greedy_plus_complete; [exact Hne | exact Hw |].
    intros pre2. rewrite lit_complete. discriminate.
Qed.

Lemma rev_app a b : PyStr.rev (a ++ b) = PyStr.rev b ++ PyStr.rev a.
Proof.
  unfold PyStr.rev. rewrite rev_onto_onto.
  generalize (PyStr.rev_onto a EmptyString). intros acc.
  revert acc. induction b as [| x b IH]; intros acc; cbn; [reflexivity |].
  rewrite (IH (String x acc)), (IH (String x EmptyString)).
  now rewrite str_app_assoc.
Qed.

Lemma rev_involutive s : PyStr.rev (PyStr.rev s) = s.
Proof. unfold PyStr.rev at 2. now rewrite rev_onto_app. Qed.

(** [regex_reviews] finds only a window that sits between its two
    sentinels. *)
Theorem regex_reviews_finds_the_window blob m :
  Re.search regex_reviews blob = Some m ->
  exists g, Re.groups m = [g] /\ has_window blob g.
Proof.
  intros H. unfold Re.search in H.
  destruct (search_from_sound _ _ _ H) as (a & b & -> & Hm).
  unfold regex_reviews in Hm. cbn [Re.match_here] in Hm.
  destruct (PyStr.startswith _ _) eqn:Es; [| discriminate].
  unfold PyStr.startswith in Es.
  destruct (PyStr.strip_prefix _ _) as [t |] eqn:Ep; [| discriminate].
  apply strip_prefix_inv in Ep. fold (PyStr.rev a) in Ep.
  assert (Ea : a = PyStr.rev t
                   ++ (PyStr.dq ++ "objectSuggestions" ++ PyStr.dq ++ ":{},")).
  { rewrite <- (rev_involutive a), Ep, rev_app. now rewrite rev_involutive. }
  change (Re.match_here
            (Re.LazyGroup Re.AnyChar
             :: [Re.Lit ("," ++ PyStr.dq ++ "photo" ++ PyStr.dq ++ ":{},")])
            (PyStr.rev_onto a EmptyString) b = Some (Re.groups m)) in Hm.
  destruct (lazy_group_sound _ _ _ _ Hm)
    as (g & p1 & gs' & pre1 & -> & Eg & H2).
  destruct (lit_sound _ _ _ _ H2) as (p2 & -> & H3).
  inversion H3; subst gs'. exists g. split; [exact Eg |].
  exists (PyStr.rev t), p2. rewrite Ea. now rewrite !str_app_assoc.
Qed.

Lemma search_groups r s m :
  Re.search r s = Some m -> length (Re.groups m) = count_groups r.
Proof.
  intros H. unfold Re.search in H.
  destruct (search_from_sound _ _ _ H) as (a & b & _ & Hm).
  exact (match_here_groups _ _ _ Hm).
Qed.

Lemma getitem_one_group r s m :
  count_groups r = 1%nat -> Re.search r s = Some m ->
  exists g, Re.getitem (Some m) 1 = Return g.
Proof.
  intros Hc H. apply search_groups in H. rewrite Hc in H.
  unfold Re.getitem. destruct (Re.groups m) as [| g gs]; [discriminate |].
  now exists g.
Qed.

Section Extraction.

Context {W : Type} (chrome : ChromeRemote W).
Variable json_loads : string -> option json.

(** When both markers are found, [get_internal_reviews] does not raise,
    whatever [json.loads] makes of the window: it returns the [review]
    entry of the parsed object, and [None] when the window is not valid
    JSON, is not an object, or has no such entry. *)
Theorem present_markers_never_raise st :
  markers_absent (fst (get_html chrome (world st))) = false ->
  exists blob window,
    Re.getitem (Re.search regex_json (fst (get_html chrome (world st)))) 1
    = Return blob
    /\ Re.getitem (Re.search regex_reviews blob) 1 = Return window
    /\ get_internal_reviews chrome json_loads st
       = Some (Return
                 (match json_loads (normalize ("{" ++ window ++ "}")) with
                  | Some (JDict kvs) =>
                      match Py.lookup "review" kvs with
                      | Some v => v
                      | None => JNull
                      end
                  | _ => JNull
                  end),
               after_get_html chrome st).
Proof.
  intros Hm. unfold markers_absent in Hm.
  destruct (Re.search regex_json _) as [m |] eqn:E1; [| discriminate].
  destruct (getitem_one_group regex_json _ eq_refl E1) as (blob & Eb).
  rewrite Eb in Hm.
  destruct (Re.search regex_reviews blob) as [m2 |] eqn:E2; [| discriminate].
  destruct (getitem_one_group regex_reviews _ eq_refl E2) as (window & Ew).
  exists blob, window. split; [exact Eb |].
  split; [rewrite E2; exact Ew |].
  rewrite get_internal_reviews_run. unfold extract, after_get_html.
  rewrite ?E1, Eb, E2, Ew. unfold loads_review.
  destruct (json_loads _) as [[| b | z | f | s | l | kvs] |]; try reflexivity.
  cbn. now destruct (Py.lookup "review" kvs).
Qed.

End Extraction.

(** ** Matching by derivatives *)

Lemma str_app_empty (s1 s2 : string) :
  s1 ++ s2 = EmptyString -> s1 = EmptyString /\ s2 = EmptyString.
Proof. destruct s1; [now split | discriminate]. Qed.

Lemma Lang_nullable r s : Rx.Lang r s -> s = EmptyString -> Rx.nullable r = true.
Proof.
  induction 1; intros E; cbn; try reflexivity; try discriminate.
  - apply str_app_empty in E as [-> ->]. now rewrite IHLang1, IHLang2.
  - now rewrite IHLang.
  - rewrite IHLang; [apply orb_true_r | exact E].
Qed.

Lemma nullable_Lang r : Rx.nullable r = true -> Rx.Lang r EmptyString.
Proof.
  induction r; cbn; intros H; try discriminate.
  - constructor.
  - apply andb_prop in H as [H1 H2].
    change EmptyString with (EmptyString ++ EmptyString).
    constructor; auto.
  - apply orb_prop in H as [H | H];
      [apply Rx.LAltL | apply Rx.LAltR]; auto.
  - constructor.
Qed.

Lemma deriv_sound a r : forall s,
  Rx.Lang (Rx.deriv a r) s -> Rx.Lang r (String a s).
Proof.
  induction r; cbn; intros s H.
  - inversion H.
  - inversion H.
  - destruct (p a) eqn:E; inversion H; subst. now constructor.
  - inversion H; subst.
    + match goal with
      | H' : Rx.Lang (Rx.Seq _ _) _ |- _ => inversion H'; subst
      end.
      change (String a (s1 ++ s2)) with (String a s1 ++ s2).
      constructor; auto.
    + destruct (Rx.nullable r1) eqn:E;
        match goal with
        | H' : Rx.Lang (if _ then _ else _) _ |- _ => idtac
        | H' : Rx.Lang _ s |- _ => try (now inversion H')
        end.
      change (String a s) with (EmptyString ++ String a s).
      constructor; [now apply nullable_Lang | auto].
  - inversion H; subst; [apply Rx.LAltL | apply Rx.LAltR]; auto.
  - inversion H; subst.
    change (String a (s1 ++ s2)) with (String a s1 ++ s2).
    constructor; auto.
Qed.

Lemma deriv_complete r t :
  Rx.Lang r t -> forall a s, t = String a s -> Rx.Lang (Rx.deriv a r) s.
Proof.
  induction 1; intros b t E; cbn.
  - discriminate.
  - inversion E; subst. rewrite H. constructor.
  - destruct s1 as [| x s1].
    + cbn in E. subst s2. apply Rx.LAltR.
      rewrite (Lang_nullable H eq_refl). now apply IHLang2.
    + cbn in E. inversion E; subst. apply Rx.LAltL.
      constructor; [now apply IHLang1 | assumption].
  - apply Rx.LAltL. now apply IHLang.
  - apply Rx.LAltR. now apply IHLang.
  - discriminate.
  - destruct s1 as [| x s1].
    + cbn in E. now apply IHLang2.
    + cbn in E. inversion E; subst.
      constructor; [now apply IHLang1 | assumption].
Qed.

(** [fullmatch] decides the texts of a pattern. *)
Lemma fullmatch_Lang s : forall r,
  Rx.fullmatch r s = true <-> Rx.Lang r s.
Proof.
  induction s as [| a s IH]; intros r; cbn.
  - split; [apply nullable_Lang | intros H; now apply (Lang_nullable H)].
  - rewrite IH. split; [apply deriv_sound |].
    intros H. now apply (deriv_complete H).
Qed.

(** [prefixmatch] decides the texts with a prefix in the pattern. *)
Lemma prefixmatch_Lang s : forall r,
  Rx.prefixmatch r s = true
  <-> exists p t, s = p ++ t /\ Rx.Lang r p.
Proof.
  induction s as [| a s IH]; intros r; cbn.
  - rewrite orb_false_r. split.
    + intros H. exists EmptyString, EmptyString.
      split; [reflexivity | now apply nullable_Lang].
    + intros (p & t & E & H). symmetry in E.
      apply str_app_empty in E as [-> _]. now apply (Lang_nullable H).
  - split.
    + intros H. apply orb_prop in H as [H | H].
      * exists EmptyString, (String a s).
        split; [reflexivity | now apply nullable_Lang].
      * apply IH in H as (p & t & -> & H).
        exists (String a p), t. split; [reflexivity |].
        now apply deriv_sound.
    + intros (p & t & E & H). destruct p as [| x p].
      * rewrite (Lang_nullable H eq_refl). reflexivity.
      * cbn in E. inversion E; subst. apply orb_true_iff. right.
        apply IH. exists p, t. split; [reflexivity |].
        now apply (deriv_complete H).
Qed.

Lemma Lang_seq r1 r2 s :
  Rx.Lang (Rx.Seq r1 r2) s
  <-> exists s1 s2, s = s1 ++ s2 /\ Rx.Lang r1 s1 /\ Rx.Lang r2 s2.
Proof.
  split.
  - intros H. inversion H; subst. now exists s1, s2.
  - intros (s1 & s2 & -> & H1 & H2). now constructor.
Qed.

Lemma Lang_lit l s : Rx.Lang (Rx.lit l) s <-> s = l.
Proof.
  revert s. induction l as [| a l IH]; intros s; cbn.
  - split; [intros H; now inversion H | intros ->; constructor].
  - rewrite Lang_seq. split.
    + intros (s1 & s2 & -> & H1 & H2). apply IH in H2. subst.
      inversion H1; subst.
      match goal with
      | E : Ascii.eqb _ _ = true |- _ => apply Ascii.eqb_eq in E; now subst
      end.
    + intros ->. exists (String a EmptyString), l. repeat split.
      * constructor. apply Ascii.eqb_refl.
      * now apply IH.
Qed.

Lemma Lang_star_chr p s :
  Rx.Lang (Rx.Star (Rx.Chr p)) s <-> all_chars p s = true.
Proof.
  split.
  - intros H. remember (Rx.Star (Rx.Chr p)) as r eqn:Er.
    induction H; inversion Er; subst; [reflexivity |].
    inversion H; subst. cbn.
    match goal with E : p _ = true |- _ => rewrite E end. auto.
  - induction s as [| a s IH]; cbn; intros H; [constructor |].
    apply andb_prop in H as [Ha Hs].
    change (String a s) with (String a EmptyString ++ s).
    constructor; [now constructor | auto].
Qed.

Lemma Lang_plus_chr p s :
  Rx.Lang (Rx.plus (Rx.Chr p)) s
  <-> s <> EmptyString /\ all_chars p s = true.
Proof.
  unfold Rx.plus. rewrite Lang_seq. split.
  - intros (s1 & s2 & -> & H1 & H2). apply Lang_star_chr in H2.
    inversion H1; subst. cbn. split; [discriminate |].
    match goal with E : p _ = true |- _ => now rewrite E end.
  - intros [Hne H]. destruct s as [| a s]; [now elim Hne |].
    cbn in H. apply andb_prop in H as [Ha Hs].
    exists (String a EmptyString), s. repeat split.
    + now constructor.
    + now apply Lang_star_chr.
Qed.

Lemma Lang_opt r s :
  Rx.Lang (Rx.opt r) s <-> Rx.Lang r s \/ s = EmptyString.
Proof.
  unfold Rx.opt. split.
  - intros H. inversion H; subst; [now left |]. right.
    match goal with H' : Rx.Lang Rx.Eps _ |- _ => now inversion H' end.
  - intros [H | ->]; [now apply Rx.LAltL | apply Rx.LAltR; constructor].
Qed.

Lemma Lang_chr p s :
  Rx.Lang (Rx.Chr p) s <-> exists a, s = String a EmptyString /\ p a = true.
Proof.
  split.
  - intros H. inversion H; subst. now eexists.
  - intros (a & -> & H). now constructor.
Qed.

(** ** The patterns of the links and of the URLs *)

Lemma Lang_eps s : Rx.Lang Rx.Eps s <-> s = EmptyString.
Proof. split; [intros H; now inversion H | intros ->; constructor]. Qed.

Ltac split_seqs H :=
  repeat (apply Lang_seq in H;
          let s1 := fresh "s" in
          let H1 := fresh "L" in
          destruct H as (s1 & ? & -> & H1 & H)).

Lemma Lang_link_rx p :
  Rx.Lang GetLinks.link_rx p
  <-> exists a b c,
        p = "/" ++ a ++ "/" ++ b ++ "/" ++ c ++ "/tab/reviews"
        /\ a <> EmptyString /\ all_chars Rx.not_slash a = true
        /\ b <> EmptyString /\ all_chars Rx.not_slash b = true
        /\ all_chars Rx.dot c = true.
Proof.
  unfold GetLinks.link_rx. cbn [Rx.seqs]. split.
  - intros H. split_seqs H.
    apply Lang_lit in L, L1, L3, L5. apply Lang_eps in H.
    apply Lang_plus_chr in L0 as [? ?], L2 as [? ?].
    apply Lang_star_chr in L4. subst.
    exists s0, s2, s4. rewrite str_app_nil_r. now repeat split.
  - intros (a & b & c & -> & Ha & Ha' & Hb & Hb' & Hc).
    apply Lang_seq. exists "/", (a ++ "/" ++ b ++ "/" ++ c ++ "/tab/reviews").
    split; [reflexivity |]. split; [now apply Lang_lit |].
    apply Lang_seq. exists a, ("/" ++ b ++ "/" ++ c ++ "/tab/reviews").
    split; [reflexivity |]. split; [now apply Lang_plus_chr |].
    apply Lang_seq. exists "/", (b ++ "/" ++ c ++ "/tab/reviews").
    split; [reflexivity |]. split; [now apply Lang_lit |].
    apply Lang_seq. exists b, ("/" ++ c ++ "/tab/reviews").
    split; [reflexivity |]. split; [now apply Lang_plus_chr |].
    apply Lang_seq. exists "/", (c ++ "/tab/reviews").
    split; [reflexivity |]. split; [now apply Lang_lit |].
    apply Lang_seq. exists c, "/tab/reviews".
    split; [reflexivity |]. split; [now apply Lang_star_chr |].
    apply Lang_seq. exists "/tab/reviews", EmptyString.
    split; [reflexivity |]. split; [now apply Lang_lit | constructor].
Qed.

(** [_get_links] keeps the [a] nodes whose [href] has the form of a link
    to a reviews tab, and no other node. *)
Theorem valid_link_accepts_review_links node :
  GetLinks.valid_link node = true
  <-> local_name node = "a"
      /\ exists href, attr_get "href" (attributes node) = Some href
                      /\ review_link_form href.
Proof.
  unfold GetLinks.valid_link, review_link_form, Rx.match_to_end.
  destruct (String.eqb (local_name node) "a") eqn:En.
  2:{ apply String.eqb_neq in En. split; [discriminate |].
      now intros [E _]. }
  apply String.eqb_eq in En.
  destruct (attr_get "href" (attributes node)) as [href |].
  2:{ split; [discriminate |]. intros [_ (h & E & _)]. discriminate. }
  rewrite fullmatch_Lang, Lang_seq. split.
  - intros (p & e & -> & Hp & He). split; [exact En |].
    exists (p ++ e). split; [reflexivity |].
    apply Lang_link_rx in Hp as (a & b & c & -> & Ha).
    exists a, b, c, e. split; [now rewrite !str_app_assoc |].
    apply Lang_opt in He.
    destruct He as [He | ->]; [| tauto].
    apply Lang_chr in He as (x & -> & Hx). unfold Rx.is_lf in Hx.
    apply Ascii.eqb_eq in Hx. subst x. tauto.
  - intros [_ (h & E & a & b & c & e & -> & Ha)]. inversion E; subst.
    exists ("/" ++ a ++ "/" ++ b ++ "/" ++ c ++ "/tab/reviews"), e.
    split; [now rewrite !str_app_assoc |].
    split; [apply Lang_link_rx; exists a, b, c; tauto |].
    apply Lang_opt. destruct Ha as (_ & _ & _ & _ & _ & [-> | ->]);
      [now right | left].
    apply Lang_chr. eexists. split; [reflexivity |]. reflexivity.
Qed.

(** A text starts with a match of [url_pattern] exactly when it has the
    form [http(s)://2gis.<domain>/<city>/<...>/tab/reviews<...>]. *)
Theorem url_pattern_accepts_review_tabs url :
  Rx.prefixmatch url_pattern_rx url = true <-> reviews_url_form url.
Proof.
  rewrite prefixmatch_Lang. unfold url_pattern_rx, reviews_url_form.
  cbn [Rx.seqs]. split.
  - intros (p & t & -> & H). split_seqs H.
    apply Lang_lit in L, L1, L3, L5, L7. apply Lang_eps in H.
    apply Lang_opt in L0.
    apply Lang_plus_chr in L2 as [? ?], L4 as [? ?].
    apply Lang_star_chr in L6. subst.
    exists s0, s2, s4, s6, t. rewrite str_app_nil_r, !str_app_assoc.
    split; [reflexivity |].
    split; [| tauto].
    destruct L0 as [L0 | ->]; [| now left]. right.
    apply Lang_chr in L0 as (x & -> & Hx). apply Ascii.eqb_eq in Hx.
    now subst x.
  - intros (s & d & c & m & rest & -> & Hs & Hd & Hd' & Hc & Hc' & Hm).
    exists ("http" ++ s ++ "://2gis." ++ d ++ "/" ++ c ++ "/" ++ m
            ++ "/tab/reviews"), rest.
    split; [now rewrite !str_app_assoc |].
    apply Lang_seq. eexists "http", _.
    split; [reflexivity |]. split; [now apply Lang_lit |].
    apply Lang_seq. eexists s, _.
    split; [reflexivity |]. split.
    { apply Lang_opt. destruct Hs as [-> | ->]; [now right | left].
      apply Lang_chr. eexists. split; reflexivity. }
    apply Lang_seq. eexists "://2gis.", _.
    split; [reflexivity |]. split; [now apply Lang_lit |].
    apply Lang_seq. eexists d, _.
    split; [reflexivity |]. split; [now apply Lang_plus_chr |].
    apply Lang_seq. eexists "/", _.
    split; [reflexivity |]. split; [now apply Lang_lit |].
    apply Lang_seq. eexists c, _.
    split; [reflexivity |]. split; [now apply Lang_plus_chr |].
    apply Lang_seq. eexists "/", _.
    split; [reflexivity |]. split; [now apply Lang_lit |].
    apply Lang_seq. eexists m, _.
    split; [reflexivity |]. split; [now apply Lang_star_chr |].
    apply Lang_seq. exists "/tab/reviews", EmptyString.
    split; [reflexivity |]. split; [now apply Lang_lit | constructor].
Qed.

(** ** The counter of pending requests *)

Lemma lower_str_cons_inv s a t :
  Xhr.lower_str s = String a t ->
  exists x s', s = String x s' /\ Xhr.lower x = a /\ Xhr.lower_str s' = t.
Proof.
  destruct s as [| x s']; cbn; intros H; [discriminate |].
  inversion H. now exists x, s'.
Qed.

Lemma Lang_ilit l : forall s,
  Rx.Lang (Xhr.ilit l) s <-> Xhr.lower_str s = Xhr.lower_str l.
Proof.
  induction l as [| a l IH]; intros s; cbn [Xhr.ilit Xhr.lower_str].
  - rewrite Lang_eps. split; [now intros -> |].
    destruct s; [reflexivity | discriminate].
  - rewrite Lang_seq. split.
    + intros (s1 & s2 & -> & H1 & H2). apply IH in H2.
      unfold Xhr.ichr in H1. apply Lang_chr in H1 as (x & -> & Hx).
      apply Ascii.eqb_eq in Hx. cbn. now rewrite H2, Hx.
    + intros H. apply lower_str_cons_inv in H as (x & s' & -> & Hx & Hs).
      exists (String x EmptyString), s'. split; [reflexivity |].
      split; [| now apply IH].
      apply Lang_chr. exists x. split; [reflexivity |].
      apply Ascii.eqb_eq. now symmetry.
Qed.

(** The wrapper counts exactly the requests to [http] or [https] URLs
    whose host part, before any slash, holds [2gis.] and a letter, in any
    letter case. *)
Theorem tracked_urls url : Xhr.tracked url = true <-> Xhr.tracked_form url.
Proof.
  unfold Xhr.tracked, Xhr.tracked_form, Xhr.tracked_rx.
  rewrite prefixmatch_Lang. cbn [Rx.seqs]. split.
  - intros (p & t & -> & H). split_seqs H.
    apply Lang_ilit in L, L3. apply Lang_lit in L1, L4.
    apply Lang_eps in H. apply Lang_opt in L0.
    apply Lang_star_chr in L2. apply Lang_plus_chr in L5 as [? ?]. subst.
    exists s, s0, s2, s3, s5, t. rewrite str_app_nil_r, !str_app_assoc.
    split; [reflexivity |]. split; [exact L |].
    split; [| tauto].
    destruct L0 as [L0 | ->]; [| now left]. right.
    unfold Xhr.ichr in L0. apply Lang_chr in L0 as (x & -> & Hx).
    apply Ascii.eqb_eq in Hx. cbn. now rewrite <- Hx.
  - intros (h & s & host & g & tld & rest & -> & Hh & Hs & Hhost & Hg
            & Ht & Ht').
    exists (h ++ s ++ "://" ++ host ++ g ++ "." ++ tld), rest.
    split; [now rewrite !str_app_assoc |].
    apply Lang_seq. eexists h, _.
    split; [reflexivity |]. split; [now apply Lang_ilit |].
    apply Lang_seq. eexists s, _.
    split; [reflexivity |]. split.
    { apply Lang_opt. destruct Hs as [-> | Hs]; [now right | left].
      apply (Lang_ilit "s") in Hs. cbn in Hs.
      apply Lang_seq in Hs as (s1 & s2 & -> & H1 & H2).
      apply Lang_eps in H2. subst. now rewrite str_app_nil_r. }
    apply Lang_seq. eexists "://", _.
    split; [reflexivity |]. split; [now apply Lang_lit |].
    apply Lang_seq. eexists host, _.
    split; [reflexivity |]. split; [now apply Lang_star_chr |].
    apply Lang_seq. eexists g, _.
    split; [reflexivity |]. split; [now apply Lang_ilit |].
    apply Lang_seq. eexists ".", _.
    split; [reflexivity |]. split; [now apply Lang_lit |].
    apply Lang_seq. exists tld, EmptyString.
    split; [now rewrite str_app_nil_r |].
    split; [now apply Lang_plus_chr | constructor].
Qed.

(** As long as no tracked request was opened, the script has left the
    page as it was: [window.openHTTPs] is undefined, and
    [window.openHTTPs == 0] is false. *)
Theorem untracked_history_never_settles h :
  Xhr.untracked h = true ->
  Xhr.run h = Xhr.init /\ Xhr.settled (Xhr.run h) = false.
Proof.
  intros H. assert (E : Xhr.run h = Xhr.init).
  { induction h as [| [x url | x k] h IH]; cbn in *; [reflexivity | |].
    - apply andb_prop in H as [Hu Hh]. apply negb_true_iff in Hu.
      unfold Xhr.open. rewrite Hu. auto.
    - now rewrite (IH H). }
  now rewrite E.
Qed.

Lemma listeners_run h : Xhr.listeners (Xhr.run h) = Xhr.tracked_ids h.
Proof.
  induction h as [| [x url | x k] h IH]; cbn; [reflexivity | |].
  - unfold Xhr.open. destruct (Xhr.tracked url); cbn; now rewrite IH.
  - exact IH.
Qed.

Lemma mem_In x l : Xhr.mem x l = true <-> In x l.
Proof.
  unfold Xhr.mem. rewrite existsb_exists. split.
  - intros (y & Hy & E). apply Nat.eqb_eq in E. now subst.
  - intros H. exists x. split; [exact H | apply Nat.eqb_refl].
Qed.

Lemma mem_false x l : Xhr.mem x l = false <-> ~ In x l.
Proof.
  rewrite <- mem_In. destruct (Xhr.mem x l); split; try easy.
Qed.

Lemma tracked_opened h x : In x (Xhr.tracked_ids h) -> In x (Xhr.opened_ids h).
Proof.
  induction h as [| [y url | y k] h IH]; cbn; auto.
  destruct (Xhr.tracked url); cbn; intuition.
Qed.

Lemma done_opened h x :
  Xhr.single_use h = true ->
  In x (Xhr.done_ids h) -> In x (Xhr.opened_ids h).
Proof.
  induction h as [| [y url | y k] h IH]; cbn; intros Hs Hx; auto.
  - apply andb_prop in Hs as [_ Hs]. right. auto.
  - apply andb_prop in Hs as [Hk Hs].
    destruct (k =? 4)%nat; [| auto].
    destruct Hx as [-> | Hx]; [| auto].
    apply andb_prop in Hk as [Hk _]. now apply mem_In.
Qed.

Lemma tracked_NoDup h :
  Xhr.single_use h = true -> NoDup (Xhr.tracked_ids h).
Proof.
  induction h as [| [y url | y k] h IH]; cbn; intros Hs.
  - constructor.
  - apply andb_prop in Hs as [Hy Hs]. apply negb_true_iff in Hy.
    apply mem_false in Hy.
    destruct (Xhr.tracked url); [| auto].
    constructor; [| auto]. intros C. apply Hy. now apply tracked_opened.
  - apply andb_prop in Hs as [_ Hs]. auto.
Qed.

Lemma times_id {A} n (x : A) : Xhr.times n (fun v => v) x = x.
Proof. induction n; cbn; auto. Qed.

Lemma count_occ_NoDup_In (l : list nat) x :
  NoDup l -> In x l -> count_occ Nat.eq_dec l x = 1%nat.
Proof.
  intros Hn Hx. now apply (proj1 (NoDup_count_occ' Nat.eq_dec l) Hn).
Qed.

Lemma mem_cons x y l :
  Xhr.mem x (y :: l) = ((x =? y)%nat || Xhr.mem x l)%bool.
Proof. reflexivity. Qed.

(** Marking [x] as done takes it out of the pending requests, once. *)
Lemma pending_after_done (l d : list nat) x :
  NoDup l -> Xhr.mem x d = false ->
  length (filter (fun y => negb (Xhr.mem y (x :: d))) l)
  = (length (filter (fun y => negb (Xhr.mem y d)) l)
     - (if Xhr.mem x l then 1 else 0))%nat.
Proof.
  intros Hn Hd. induction l as [| y l IH]; [reflexivity |].
  inversion Hn as [| ? ? Hy Hl]; subst. specialize (IH Hl).
  cbn [filter]. rewrite !mem_cons.
  destruct (Nat.eqb_spec y x) as [-> | Hne].
  - rewrite Nat.eqb_refl, Hd. cbn [orb negb length].
    assert (Hx : Xhr.mem x l = false) by now apply mem_false.
    rewrite Hx in IH. rewrite IH. lia.
  - destruct (Nat.eqb_spec x y) as [-> | _]; [now elim Hne |].
    cbn [orb]. destruct (Xhr.mem y d); cbn [negb length]; [exact IH |].
    rewrite IH. destruct (Xhr.mem x l) eqn:Hx; [| lia].
    apply mem_In in Hx.
    assert (Hin : In x (filter (fun y0 => negb (Xhr.mem y0 d)) l)).
    { apply filter_In. split; [exact Hx | now rewrite Hd]. }
    destruct (filter (fun y0 => negb (Xhr.mem y0 d)) l);
      [now elim Hin | cbn [length]; lia].
Qed.

(** The value of the counter after a history in which every request
    object is used once. *)
Lemma openHTTPs_single_use h :
  Xhr.single_use h = true ->
  Xhr.openHTTPs (Xhr.run h)
  = match Xhr.tracked_ids h with
    | [] => Xhr.Undefined
    | _ => Xhr.Number (Z.of_nat (length (Xhr.pending h)))
    end.
Proof.
  intros Hs.
  induction h as [| [x url | x k] h IH]; [reflexivity | |].
  - cbn [Xhr.single_use] in Hs. apply andb_prop in Hs as [Hx Hs].
    specialize (IH Hs). apply negb_true_iff, mem_false in Hx.
    cbn [Xhr.run Xhr.step Xhr.tracked_ids]. unfold Xhr.open, Xhr.pending.
    cbn [Xhr.tracked_ids Xhr.done_ids].
    destruct (Xhr.tracked url); [| exact IH].
    cbn [Xhr.openHTTPs filter].
    assert (Hd : Xhr.mem x (Xhr.done_ids h) = false).
    { apply mem_false. intros C. apply Hx. now apply done_opened. }
    rewrite Hd. cbn [negb length]. rewrite IH. unfold Xhr.pending.
    destruct (Xhr.tracked_ids h); cbn [Xhr.incr filter length];
      [reflexivity |].
    f_equal. lia.
  - cbn [Xhr.single_use] in Hs. apply andb_prop in Hs as [Hk Hs].
    specialize (IH Hs).
    cbn [Xhr.run Xhr.step Xhr.tracked_ids]. unfold Xhr.ready_state_change.
    cbn [Xhr.openHTTPs]. unfold Xhr.pending.
    cbn [Xhr.tracked_ids Xhr.done_ids].
    destruct (k =? 4)%nat; [| now rewrite times_id].
    apply andb_prop in Hk as [_ Hd]. apply negb_true_iff in Hd.
    rewrite (@pending_after_done _ _ _ (@tracked_NoDup h Hs) Hd).
    rewrite listeners_run, IH. unfold Xhr.pending.
    destruct (Xhr.mem x (Xhr.tracked_ids h)) eqn:Hx.
    + apply mem_In in Hx.
      rewrite (@count_occ_NoDup_In _ _ (@tracked_NoDup h Hs) Hx).
      cbn [Xhr.times].
      assert (Hpos : (0 < length (filter
                            (fun y => negb (Xhr.mem y (Xhr.done_ids h)))
                            (Xhr.tracked_ids h)))%nat).
      { assert (Hin : In x (filter
                              (fun y => negb (Xhr.mem y (Xhr.done_ids h)))
                              (Xhr.tracked_ids h))).
        { apply filter_In. split; [exact Hx | now rewrite Hd]. }
        destruct (filter _ (Xhr.tracked_ids h));
          [now elim Hin | cbn; lia]. }
      destruct (Xhr.tracked_ids h); [now elim Hx |].
      cbn [Xhr.decr]. f_equal. lia.
    + apply mem_false in Hx.
      rewrite (proj1 (count_occ_not_In Nat.eq_dec _ _) Hx).
      cbn [Xhr.times]. rewrite Nat.sub_0_r. reflexivity.
Qed.

(** When every request object is used once, the counter is the number of
    tracked requests that are still pending: it is never negative, and
    [window.openHTTPs == 0] holds exactly when a tracked request was
    opened and none is pending. *)
Theorem counter_counts_pending_requests h :
  Xhr.single_use h = true ->
  Xhr.openHTTPs (Xhr.run h)
  = match Xhr.tracked_ids h with
    | [] => Xhr.Undefined
    | _ => Xhr.Number (Z.of_nat (length (Xhr.pending h)))
    end
  /\ (Xhr.settled (Xhr.run h) = true
      <-> Xhr.tracked_ids h <> [] /\ Xhr.pending h = []).
Proof.
  intros Hs. pose proof (@openHTTPs_single_use h Hs) as E.
  split; [exact E |].
  unfold Xhr.settled. rewrite E.
  destruct (Xhr.tracked_ids h) as [| y l] eqn:Et.
  - split; [discriminate | now intros [C _]].
  - destruct (Xhr.pending h) as [| z p]; cbn.
    + split; [now split | reflexivity].
    + split; [discriminate | intros [_ C]; discriminate].
Qed.

(** A request object that is opened again keeps its first listener: when
    a fresh object runs two tracked requests to completion, the counter
    ends one below the number of pending requests, so the page reports
    [window.openHTTPs == 0] exactly while one request is still pending. *)
Theorem reused_request_object_miscounts h x url :
  Xhr.single_use h = true ->
  Xhr.mem x (Xhr.opened_ids h) = false ->
  Xhr.tracked url = true ->
  let again := [Xhr.ReadyStateChange x 4; Xhr.Open x url;
                Xhr.ReadyStateChange x 4; Xhr.Open x url] in
  Xhr.openHTTPs (Xhr.run (again ++ h)%list)
  = Xhr.Number (Z.of_nat (length (Xhr.pending h)) - 1)
  /\ Xhr.pending (again ++ h)%list = Xhr.pending h
  /\ (Xhr.settled (Xhr.run (again ++ h)%list) = true
      <-> length (Xhr.pending h) = 1%nat).
Proof.
  intros Hs Hx Hu again. subst again. cbn [app].
  set (h1 := Xhr.Open x url :: h).
  set (h2 := Xhr.ReadyStateChange x 4 :: h1).
  assert (Hxt : Xhr.mem x (Xhr.tracked_ids h) = false).
  { apply mem_false. intros C. apply mem_false in Hx. apply Hx.
    now apply tracked_opened. }
  assert (Hxd : Xhr.mem x (Xhr.done_ids h) = false).
  { apply mem_false. intros C. apply mem_false in Hx. apply Hx.
    now apply done_opened. }
  assert (Hs1 : Xhr.single_use h1 = true).
  { subst h1. cbn [Xhr.single_use]. now rewrite Hx, Hs. }
  assert (Hs2 : Xhr.single_use h2 = true).
  { subst h2. cbn [Xhr.single_use Nat.eqb]. rewrite Hs1.
    subst h1. cbn [Xhr.opened_ids Xhr.done_ids]. rewrite mem_cons.
    now rewrite Nat.eqb_refl, Hxd. }
  assert (Ht1 : Xhr.tracked_ids h1 = x :: Xhr.tracked_ids h).
  { subst h1. cbn [Xhr.tracked_ids]. now rewrite Hu. }
  assert (Hsame : forall d,
            filter (fun y => negb (Xhr.mem y (x :: d))) (Xhr.tracked_ids h)
            = filter (fun y => negb (Xhr.mem y d)) (Xhr.tracked_ids h)).
  { intros d. apply filter_ext_in. intros y Hy. rewrite mem_cons.
    destruct (Nat.eqb_spec y x) as [-> | _]; [| reflexivity].
    apply mem_In in Hy. congruence. }
  assert (Hp2 : Xhr.pending h2 = Xhr.pending h).
  { unfold Xhr.pending. subst h2. cbn [Xhr.tracked_ids Xhr.done_ids Nat.eqb].
    rewrite Ht1. subst h1. cbn [Xhr.done_ids filter].
    rewrite mem_cons, Nat.eqb_refl. cbn [orb negb]. apply Hsame. }
  assert (Hp4 : Xhr.pending
                  (Xhr.ReadyStateChange x 4 :: Xhr.Open x url :: h2)
                = Xhr.pending h).
  { unfold Xhr.pending.
    cbn [Xhr.tracked_ids Xhr.done_ids Nat.eqb]. rewrite Hu.
    subst h2. cbn [Xhr.tracked_ids Xhr.done_ids Nat.eqb]. rewrite Ht1.
    subst h1. cbn [Xhr.done_ids filter].
    rewrite !mem_cons, Nat.eqb_refl. cbn [orb negb].
    rewrite Hsame. apply Hsame. }
  assert (E : Xhr.openHTTPs
                (Xhr.run (Xhr.ReadyStateChange x 4 :: Xhr.Open x url :: h2))
              = Xhr.Number (Z.of_nat (length (Xhr.pending h)) - 1)).
  { cbn [Xhr.run Xhr.step]. fold (Xhr.run h2).
    unfold Xhr.ready_state_change, Xhr.open. rewrite Hu.
    cbn [Xhr.openHTTPs Xhr.listeners Nat.eqb].
    rewrite listeners_run, (@openHTTPs_single_use h2 Hs2), Hp2.
    subst h2. cbn [Xhr.tracked_ids]. rewrite Ht1.
    cbn [count_occ]. destruct (Nat.eq_dec x x) as [_ | C]; [| now elim C].
    apply mem_false in Hxt.
    rewrite (proj1 (count_occ_not_In Nat.eq_dec _ _) Hxt).
    cbn [Xhr.times Xhr.incr Xhr.decr]. f_equal. lia. }
  split; [exact E |]. split; [exact Hp4 |].
  unfold Xhr.settled. rewrite E.
  destruct (length (Xhr.pending h)) as [| [| n]]; cbn.
  - split; discriminate.
  - split; reflexivity.
  - split; [| discriminate].
    destruct (Pos.of_succ_nat n); discriminate.
Qed.

(** ** The further properties on scripted sessions *)

(** A pagination response whose body is markup instead of JSON. *)
Lemma markup_body_aborts_the_parse :
  let w := Scripted.set_pages Scripted.base
             [(Some (Scripted.api_response 200), Some "<html>busy</html>")]
             None in
  let st2 := Scripted.after (load_reviews Scripted.chrome Scripted.parser)
               (after_get_html Scripted.chrome (Scripted.entry w)) in
  (Scripted.loads Scripted.table "<html>busy</html>" = None ->
   parse_loop Scripted.chrome (Scripted.loads Scripted.table)
     Scripted.parser 1 [] true (Scripted.entry w)
   = Some (Raise JSONDecodeError, st2))
  /\ (forall kvs,
      Scripted.loads Scripted.table "<html>busy</html>" = Some (JDict kvs) ->
      Py.lookup "reviews" kvs = None ->
      parse_loop Scripted.chrome (Scripted.loads Scripted.table)
        Scripted.parser 1 [] true (Scripted.entry w)
      = Some (Raise KeyError, st2))
  /\ exists l, calls st2 = (calls (Scripted.entry w) ++ l)%list
               /\ count is_stop l = O.
Proof.
  cbv zeta.
  apply (@malformed_body_aborts _ Scripted.chrome
           (Scripted.loads Scripted.table) Scripted.parser 0 [] true
           (Scripted.entry
              (Scripted.set_pages Scripted.base
                 [(Some (Scripted.api_response 200),
                   Some "<html>busy</html>")] None))
           Scripted.bootstrap
           (after_get_html Scripted.chrome
              (Scripted.entry
                 (Scripted.set_pages Scripted.base
                    [(Some (Scripted.api_response 200),
                      Some "<html>busy</html>")] None)))
           "<html>busy</html>" _ [Scripted.good_review]);
    vm_compute; reflexivity.
Defined.

(** A page with one bootstrap record and no pagination response. *)
Lemma bootstrap_alone_on_a_page_without_responses :
  let st2 := Scripted.after (load_reviews Scripted.chrome Scripted.parser)
               (after_get_html Scripted.chrome
                  (Scripted.entry Scripted.base)) in
  Scripted.run 1 Scripted.base
  = Some (Return (Some [Scripted.good_review]),
          stopped Scripted.chrome st2).
Proof.
  cbv zeta.
  apply (@bootstrap_alone_is_returned _ Scripted.chrome
           (Scripted.loads Scripted.table) Scripted.parser 0
           (Scripted.start Scripted.base) (Scripted.entry Scripted.base)
           [("u1", Scripted.good_review)] None).
  - vm_compute; reflexivity.
  - vm_compute; reflexivity.
  - repeat constructor. simpl. tauto.
  - vm_compute; reflexivity.
  - reflexivity.
Defined.

(** A blob whose [review] entry is a string. *)
Lemma string_bootstrap_raises_type_error :
  let loads := Scripted.loads
                 [(Scripted.blob_json, JDict [("review", JStr "closed")])] in
  let st2 := Scripted.after (load_reviews Scripted.chrome Scripted.parser)
               (after_get_html Scripted.chrome
                  (Scripted.entry Scripted.base)) in
  merge_internal [] (JStr "closed") = Raise TypeError
  /\ parse_loop Scripted.chrome loads Scripted.parser 1 [] true
       (Scripted.entry Scripted.base)
     = Some (Raise TypeError, st2).
Proof.
  cbv zeta.
  apply (@scalar_bootstrap_raises_type_error _ Scripted.chrome
           (Scripted.loads
              [(Scripted.blob_json, JDict [("review", JStr "closed")])])
           Scripted.parser 0 [] (Scripted.entry Scripted.base)
           (JStr "closed")
           (after_get_html Scripted.chrome (Scripted.entry Scripted.base))
           None).
  - vm_compute; reflexivity.
  - vm_compute; reflexivity.
  - reflexivity.
  - intros kvs; discriminate.
  - intros l; discriminate.
Defined.

(** The calls of the pagination step on a page with one response. *)
Lemma call_shape_with_one_response :
  let st := after_get_html Scripted.chrome
              (Scripted.entry Scripted.one_page) in
  let st' := Scripted.after (load_reviews Scripted.chrome Scripted.parser)
               st in
  exists k sidebar body,
    calls st'
    = (calls st
       ++ (if delay_between_clicks (_options Scripted.parser) =? 0 then []
           else [CWait (delay_between_clicks (_options Scripted.parser))])
       ++ repeat CGetDocument (S k)
       ++ [CPerformScroll sidebar;
           CWaitResponses (_item_response_pattern Scripted.parser)]
       ++ body)%list
    /\ (k <= polls_within Scripted.chrome 5
               (world (after_delay Scripted.chrome Scripted.parser st)))%nat
    /\ (body = [] /\ Some Scripted.batch_json = None
        \/ exists r, body = [CGetResponseBody r 10] /\ 0 <= status r).
Proof.
  cbv zeta.
  apply (@load_reviews_call_shape _ Scripted.chrome Scripted.parser
           (after_get_html Scripted.chrome
              (Scripted.entry Scripted.one_page))
           (Some Scripted.batch_json)).
  vm_compute; reflexivity.
Defined.

(** The window of the scripted blob. *)
Lemma window_of_the_scripted_blob :
  let blob := Scripted.q "objectSuggestions"
              ++ ":{},'review':{'u1':'good'},"
              ++ Scripted.q "photo" ++ ":{},'x':1" in
  exists g,
    Re.groups {| Re.groups := ["'review':{'u1':'good'}"] |} = [g]
    /\ has_window blob g.
Proof.
  cbv zeta.
  apply (@regex_reviews_finds_the_window
           (Scripted.q "objectSuggestions"
            ++ ":{},'review':{'u1':'good'},"
            ++ Scripted.q "photo" ++ ":{},'x':1")
           {| Re.groups := ["'review':{'u1':'good'}"] |}).
  vm_compute; reflexivity.
Defined.

(** A page whose window is not valid JSON: the markers are there. *)
Lemma broken_window_does_not_raise :
  let st := Scripted.entry (Scripted.with_html Scripted.base
                              Scripted.broken_html) in
  exists blob window,
    Re.getitem
      (Re.search regex_json (fst (get_html Scripted.chrome (world st)))) 1
    = Return blob
    /\ Re.getitem (Re.search regex_reviews blob) 1 = Return window
    /\ get_internal_reviews Scripted.chrome (Scripted.loads Scripted.table)
         st
       = Some (Return
                 (match Scripted.loads Scripted.table
                          (normalize ("{" ++ window ++ "}")) with
                  | Some (JDict kvs) =>
                      match Py.lookup "review" kvs with
                      | Some v => v
                      | None => JNull
                      end
                  | _ => JNull
                  end),
               after_get_html Scripted.chrome st).
Proof.
  cbv zeta.
  apply (@present_markers_never_raise _ Scripted.chrome
           (Scripted.loads Scripted.table)
           (Scripted.entry (Scripted.with_html Scripted.base
                              Scripted.broken_html))).
  vm_compute; reflexivity.
Defined.

(** Requests to other hosts only, one of them completed. *)
Lemma other_hosts_never_settle :
  let h := [Xhr.ReadyStateChange 1 4;
            Xhr.Open 2 "https://example.com/2gis.ru";
            Xhr.Open 1 "https://mc.yandex.ru/watch"] in
  Xhr.run h = Xhr.init /\ Xhr.settled (Xhr.run h) = false.
Proof.
  cbv zeta.
  apply (@untracked_history_never_settles
           [Xhr.ReadyStateChange 1 4;
            Xhr.Open 2 "https://example.com/2gis.ru";
            Xhr.Open 1 "https://mc.yandex.ru/watch"]).
  vm_compute; reflexivity.
Defined.

(** Two tracked requests, one of them completed. *)
Lemma counter_with_one_request_pending :
  let h := [Xhr.ReadyStateChange 1 4;
            Xhr.Open 2 "https://catalog.api.2gis.ru/3.0/items";
            Xhr.ReadyStateChange 1 2;
            Xhr.Open 1 "https://public-api.reviews.2gis.com/2.0/reviews"] in
  Xhr.openHTTPs (Xhr.run h)
  = match Xhr.tracked_ids h with
    | [] => Xhr.Undefined
    | _ => Xhr.Number (Z.of_nat (length (Xhr.pending h)))
    end
  /\ (Xhr.settled (Xhr.run h) = true
      <-> Xhr.tracked_ids h <> [] /\ Xhr.pending h = []).
Proof.
  cbv zeta.
  apply (@counter_counts_pending_requests
           [Xhr.ReadyStateChange 1 4;
            Xhr.Open 2 "https://catalog.api.2gis.ru/3.0/items";
            Xhr.ReadyStateChange 1 2;
            Xhr.Open 1 "https://public-api.reviews.2gis.com/2.0/reviews"]).
  vm_compute; reflexivity.
Defined.

(** One request pending while another object is used twice: the page
    reports quiescence. *)
Lemma reuse_beside_a_pending_request :
  let h := [Xhr.Open 1 "https://catalog.api.2gis.ru/3.0/items"] in
  let url := "https://public-api.reviews.2gis.com/2.0/reviews" in
  let again := [Xhr.ReadyStateChange 2 4; Xhr.Open 2 url;
                Xhr.ReadyStateChange 2 4; Xhr.Open 2 url] in
  Xhr.openHTTPs (Xhr.run (again ++ h)%list)
  = Xhr.Number (Z.of_nat (length (Xhr.pending h)) - 1)
  /\ Xhr.pending (again ++ h)%list = Xhr.pending h
  /\ (Xhr.settled (Xhr.run (again ++ h)%list) = true
      <-> length (Xhr.pending h) = 1%nat).
Proof.
  cbv zeta.
  apply (@reused_request_object_miscounts
           [Xhr.Open 1 "https://catalog.api.2gis.ru/3.0/items"] 2%nat
           "https://public-api.reviews.2gis.com/2.0/reviews");
    vm_compute; reflexivity.
Defined.
